(** * Attendance script: scan processing, cooldown, end-of-day sweep, exit codes

    A shallow embedding of [attendance_system/python/attendance.py].

    Conventions of the embedding.
    - A naive [datetime] is the number of microseconds since the start of
      the proleptic calendar, a [time] of day the number of microseconds
      since midnight, a [date] the number of whole days.  Comparisons of
      Python [time] and [datetime] values are comparisons of these numbers.
    - The MySQL connection is a pair of table snapshots: what is committed
      and what the open transaction sees.  [commit] publishes the working
      snapshot, [rollback] discards it.
    - A statement that writes goes through [_mysql_db_call], which tries
      it up to five times: what each attempt does is read from an
      environment record, one stream of attempts per call site.  A
      [mysql.connector.Error] that is not retried reaches the [except Error]
      handler around the call; five [OperationalError]s in a row end in
      [tenacity.RetryError], which no [except Error] handler catches.
      [commit()] and [start_transaction()] are called directly; whether
      they raise [Error] is a flag of the environment.
      Queries ([SELECT]) and spreadsheet calls are taken to return.
    - An exception that leaves a function is recorded in the field [raised]
      of the world; the function then has no return value, and the value
      the embedding pairs with that world stands for none.
    - The server's choice among rows that [ORDER BY ... LIMIT 1] does not
      order is read from the environment.
    - Every reading of [datetime.now()] is a field of the environment
      record of the function that reads it, so two readings in one call may
      differ.
    - Every call with an outside effect is appended to [log], in order. *)

From Stdlib Require Import ZArith QArith Qround Lia List Bool.
From stdpp Require Import gmap strings list fin_maps.
Import ListNotations.

Open Scope Z_scope.

(* ===================================================================== *)
(** ** Dates and times *)
(* ===================================================================== *)

Module Clock.

Definition datetime := Z.
Definition time_of_day := Z.
Definition date := Z.

Definition US_PER_SECOND : Z := 1000000.
Definition US_PER_MINUTE : Z := 60 * US_PER_SECOND.
Definition US_PER_HOUR : Z := 60 * US_PER_MINUTE.
Definition US_PER_DAY : Z := 24 * US_PER_HOUR.

(** [time(hour, minute)] *)
Definition time (hour minute : Z) : time_of_day :=
  hour * US_PER_HOUR + minute * US_PER_MINUTE.

(** [datetime.min.time()] and [datetime.max.time()] *)
Definition time_min : time_of_day := 0.
Definition time_max : time_of_day := US_PER_DAY - 1.

(** [now.time()], [now.date()], [datetime.combine(d, t)] *)
Definition dt_time (now : datetime) : time_of_day := now mod US_PER_DAY.
Definition dt_date (now : datetime) : date := now / US_PER_DAY.
Definition combine (d : date) (t : time_of_day) : datetime :=
  d * US_PER_DAY + t.

(** [timedelta(minutes=m)]: a duration in microseconds, fractions of a
    microsecond rounded to the nearest, halves to the even one. *)
Definition timedelta_minutes (m : Q) : Z :=
  let us := (m * inject_Z US_PER_MINUTE)%Q in
  let whole := Qfloor us in
  match ((us - inject_Z whole) * 2 ?= 1)%Q with
  | Lt => whole
  | Gt => whole + 1
  | Eq => if Z.even whole then whole else whole + 1
  end.

(** [strftime("%H:%M:%S")] *)
Definition digit (n : Z) : Ascii.ascii :=
  Ascii.ascii_of_nat (48 + Z.to_nat (n mod 10)).
Definition two_digits (n : Z) : string :=
  String (digit (n / 10)) (String (digit n) EmptyString).
Definition strftime_HMS (now : datetime) : string :=
  let t := dt_time now in
  two_digits (t / US_PER_HOUR) +:+ ":" +:+
  two_digits ((t / US_PER_MINUTE) mod 60) +:+ ":" +:+
  two_digits ((t / US_PER_SECOND) mod 60).

End Clock.
Import Clock.

(* ===================================================================== *)
(** ** Module constants *)
(* ===================================================================== *)

Definition SIGNIN_ALLOWED_TIME : time_of_day := time 6 0.
Definition CUTOFF_TIME : time_of_day := time 16 0.
Definition LATE_SIGNIN_TIME : time_of_day := time 8 30.
(** The float 0.3 is not exactly 3/10; [timedelta] rounds the difference
    away, and [timedelta(minutes=0.3)] is 18 seconds either way. *)
Definition COOLDOWN_MINUTES : Q := 0.3%Q.

(* ===================================================================== *)
(** ** The retry decorator *)
(* ===================================================================== *)

Module Retry.

(** What one attempt of the wrapped call does: it returns, it raises the
    exception type the decorator retries on, or it raises another one. *)
Inductive Attempt :=
| Returns
| RaisesRetryable
| RaisesOther.

(** How the decorated call ends: with the value of an attempt, with the
    exception of an attempt that is not retried, or with
    [tenacity.RetryError] once the attempts are used up (the decorator
    is given no [reraise=True]). *)
Inductive Result :=
| Value
| Propagated
| GaveUp.

(** [stop=stop_after_attempt(5)] *)
Definition MAX_ATTEMPTS : nat := 5.

(** The attempts from the [k]-th on, with [left] of them still allowed. *)
Fixpoint attempts_from (left k : nat) (attempt : nat -> Attempt) : Result :=
  match left with
  | O => GaveUp
  | S left' =>
      match attempt k with
      | Returns => Value
      | RaisesOther => Propagated
      | RaisesRetryable => attempts_from left' (S k) attempt
      end
  end.

Definition call (attempt : nat -> Attempt) : Result :=
  attempts_from MAX_ATTEMPTS 0 attempt.

End Retry.

(** [_mysql_db_call(cursor.execute, ...)]: the retried exception is
    [OperationalError]; [Retry.Propagated] is another
    [mysql.connector.Error], which [except Error] catches;
    [Retry.GaveUp] is [RetryError], which it does not. *)
Definition mysql_db_call (attempt : nat -> Retry.Attempt) : Retry.Result :=
  Retry.call attempt.

(** The call does not return. *)
Definition fails (r : Retry.Result) : bool :=
  match r with
  | Retry.Value => false
  | Retry.Propagated | Retry.GaveUp => true
  end.

(** Exceptions that leave [on_tag_scan] or [auto_mark_out_all_users]. *)
Inductive Exc :=
| RetryError.

(* ===================================================================== *)
(** ** Tables and the connection *)
(* ===================================================================== *)

Record StaffRow := mkStaff {
  staff_tag_id : string;
  staff_Name : string;
  staff_department : string
}.

Record SignRow := mkSign {
  sign_tag_id : string;
  sign_Name : string
}.

(** A row of [onsite]; [Active] is the integer column the code compares
    with 1, [sign_out_date] is nullable. *)
Record OnsiteRow := mkOnsite {
  onsite_id : Z;
  tag_id : string;
  scan_date : datetime;
  Active : Z;
  sign_out_date : option datetime
}.

Record Tables := mkTables {
  Staff : list StaffRow;
  sign : list SignRow;
  onsite : list OnsiteRow
}.

(** [next_onsite_id] is the AUTO_INCREMENT counter of [onsite]; it is not
    part of any transaction. *)
Record Connection := mkConnection {
  committed : Tables;
  working : Tables;
  next_onsite_id : Z
}.

Definition commit (c : Connection) : Connection :=
  mkConnection (working c) (working c) (next_onsite_id c).

Definition rollback (c : Connection) : Connection :=
  mkConnection (committed c) (committed c) (next_onsite_id c).

Definition with_working (c : Connection) (t : Tables) : Connection :=
  mkConnection (committed c) t (next_onsite_id c).

(** No transaction is open: the working snapshot is the committed one. *)
Definition clean (c : Connection) : Prop := working c = committed c.

(** [INSERT INTO sign (tag_id, Name) VALUES (%s, %s)] *)
Definition insert_sign (tag name : string) (c : Connection) : Connection :=
  let t := working c in
  with_working c (mkTables (Staff t) (sign t ++ [mkSign tag name]) (onsite t)).

(** [INSERT INTO onsite (tag_id, scan_date, Active, sign_out_date)
     VALUES (%s, %s, %s, %s)] with the values [(tag, now, 1, None)] *)
Definition insert_onsite (tag : string) (now : datetime) (c : Connection)
  : Connection :=
  let t := working c in
  mkConnection (committed c)
    (mkTables (Staff t) (sign t)
       (onsite t ++ [mkOnsite (next_onsite_id c) tag now 1 None]))
    (next_onsite_id c + 1).

(** The row written by [SET Active = 0, sign_out_date = now]. *)
Definition mark_out (now : datetime) (r : OnsiteRow) : OnsiteRow :=
  mkOnsite (onsite_id r) (tag_id r) (scan_date r) 0 (Some now).

(** [UPDATE onsite SET Active = %s, sign_out_date = %s WHERE onsite_id = %s]
    with the values [(0, now, id)] *)
Definition update_onsite_out (id : Z) (now : datetime) (rows : list OnsiteRow)
  : list OnsiteRow :=
  map (fun r => if onsite_id r =? id then mark_out now r else r) rows.

Definition update_onsite (id : Z) (now : datetime) (c : Connection)
  : Connection :=
  let t := working c in
  with_working c
    (mkTables (Staff t) (sign t) (update_onsite_out id now (onsite t))).

(* ===================================================================== *)
(** ** Spreadsheets, the cooldown registry, the log *)
(* ===================================================================== *)

(** A cell address [rowcol_to_a1(row, col)] is the pair [(row, col)]. *)
Definition cell := (nat * nat)%type.
Definition cell_update := (cell * string)%type.

(** [worksheet.batch_update(updates)]: one value per range, in order. *)
Definition batch_update (updates : list cell_update)
    (sheet : gmap cell string) : gmap cell string :=
  fold_left (fun s u => <[fst u := snd u]> s) updates sheet.

Inductive Event :=
| EvStartTransaction
| EvInsertSign (tag name : string)
| EvInsertOnsite (tag : string) (now : datetime)
| EvUpdateOnsite (id : Z) (now : datetime)
| EvError
| EvCommit
| EvRollback
| EvMonthlyBatch (updates : list cell_update)
| EvDailyBatch (updates : list cell_update).

(** [raised] is the exception that is propagating, if any. *)
Record World := mkWorld {
  connection : Connection;
  month_sheet : gmap cell string;
  daily_sheet : gmap cell string;
  last_tap_times : gmap string datetime;
  log : list Event;
  raised : option Exc
}.

Definition set_connection (c : Connection) (w : World) : World :=
  mkWorld c (month_sheet w) (daily_sheet w) (last_tap_times w) (log w)
    (raised w).
Definition set_month_sheet (s : gmap cell string) (w : World) : World :=
  mkWorld (connection w) s (daily_sheet w) (last_tap_times w) (log w)
    (raised w).
Definition set_daily_sheet (s : gmap cell string) (w : World) : World :=
  mkWorld (connection w) (month_sheet w) s (last_tap_times w) (log w)
    (raised w).
Definition set_last_tap_times (m : gmap string datetime) (w : World) : World :=
  mkWorld (connection w) (month_sheet w) (daily_sheet w) m (log w)
    (raised w).
Definition emit (e : Event) (w : World) : World :=
  mkWorld (connection w) (month_sheet w) (daily_sheet w) (last_tap_times w)
    (log w ++ [e]) (raised w).
(** [raise e]: nothing else changes, no handler of the function runs. *)
Definition raise_exc (e : Exc) (w : World) : World :=
  mkWorld (connection w) (month_sheet w) (daily_sheet w) (last_tap_times w)
    (log w) (Some e).

(** The values [initialize_sheets] returns and the later calls reuse. *)
Record Caches := mkCaches {
  today_col_index : nat;
  staff_name_to_month_row_index : gmap string nat;
  staff_name_to_daily_row_index : gmap string nat
}.

(** Python truth value of a string. *)
Definition truthy (s : string) : bool :=
  match s with EmptyString => false | _ => true end.

(** Python truth value of [dict.get(name)] for a dict of row numbers:
    [None] and [0] are false. *)
Definition row_of (m : gmap string nat) (name : string) : option nat :=
  match m !! name with
  | Some (S n) => Some (S n)
  | _ => None
  end.

(* ===================================================================== *)
(** ** Environment of one scan and of one sweep *)
(* ===================================================================== *)

(** What one call of [on_tag_scan] reads from outside: the two clock
    readings (its own [now], and the [now] of [check_cooldown]); for each
    retried [execute] of a writing statement it can reach, what the
    attempts do; for each [commit()], whether it raises [Error]; and which
    of the rows with the greatest [scan_date] the server lists first. *)
Record ScanEnv := mkScanEnv {
  scan_now : datetime;
  cooldown_now : datetime;
  sign_insert : nat -> Retry.Attempt;
  sign_commit_error : bool;
  latest_pick : nat;
  onsite_execute : nat -> Retry.Attempt;
  onsite_commit_error : bool
}.

(** The [INSERT INTO sign], the write to [onsite], does not return. *)
Definition sign_insert_error (env : ScanEnv) : bool :=
  fails (mysql_db_call (sign_insert env)).
Definition onsite_execute_error (env : ScanEnv) : bool :=
  fails (mysql_db_call (onsite_execute env)).

(** What one call of [auto_mark_out_all_users] reads from outside: its
    clock readings in program order (the reading of the [k]-th loop
    iteration is [sweep_now_update k]), whether [start_transaction()] and
    [commit()] raise [Error], and what the attempts of the [UPDATE] of the
    [k]-th iteration do. *)
Record SweepEnv := mkSweepEnv {
  sweep_now_cutoff : datetime;
  sweep_now_start : datetime;
  sweep_now_end : datetime;
  sweep_now_str : datetime;
  sweep_now_update : nat -> datetime;
  start_transaction_error : bool;
  update_execute : nat -> nat -> Retry.Attempt;
  sweep_commit_error : bool
}.

(** The [UPDATE] of the [k]-th iteration does not return. *)
Definition update_error (env : SweepEnv) (k : nat) : bool :=
  fails (mysql_db_call (update_execute env k)).

Definition do_commit (w : World) : World :=
  emit EvCommit (set_connection (commit (connection w)) w).

(** The [except Error] handlers: the raised error, then [rollback()]. *)
Definition do_rollback (w : World) : World :=
  emit EvRollback (set_connection (rollback (connection w)) (emit EvError w)).

(* ===================================================================== *)
(** ** Identity resolution *)
(* ===================================================================== *)

(** [SELECT Name FROM sign WHERE tag_id = %s], [fetchone()] *)
Definition select_sign_name (t : Tables) (tag : string) : option string :=
  option_map sign_Name
    (List.find (fun r => String.eqb (sign_tag_id r) tag) (sign t)).

(** [SELECT tag_id FROM Staff WHERE tag_id = %s], [fetchone()] *)
Definition select_staff_tag (t : Tables) (tag : string) : option string :=
  option_map staff_tag_id
    (List.find (fun r => String.eqb (staff_tag_id r) tag) (Staff t)).

(** [SELECT Name FROM Staff WHERE tag_id = %s], [fetchone()] *)
Definition select_staff_name (t : Tables) (tag : string) : option string :=
  option_map staff_Name
    (List.find (fun r => String.eqb (staff_tag_id r) tag) (Staff t)).

(** Returns [Some (assigned_name, tag_id)] or [None] for [(None, None)].
    When the [INSERT] ends in [RetryError] nothing is returned and the
    handler does not run. *)
Definition get_assigned_name_and_tag (env : ScanEnv) (tag : string) (w : World)
  : option (string * string) * World :=
  let t := working (connection w) in
  match select_sign_name t tag with
  | Some assigned_name =>
      match select_staff_tag t tag with
      | None => (None, w)
      | Some _ => (Some (assigned_name, tag), w)
      end
  | None =>
      match select_staff_name t tag with
      | Some staff_name =>
          match mysql_db_call (sign_insert env) with
          | Retry.GaveUp => (None, raise_exc RetryError w)
          | Retry.Propagated => (None, do_rollback w)
          | Retry.Value =>
              let w1 := emit (EvInsertSign tag staff_name)
                          (set_connection
                             (insert_sign tag staff_name (connection w)) w) in
              if sign_commit_error env then (None, do_rollback w1)
              else (Some (staff_name, tag), do_commit w1)
          end
      | None => (None, w)
      end
  end.

(** [get_staff_name_by_tag_id] *)
Definition get_staff_name_by_tag_id (t : Tables) (tag : string)
  : option string := select_staff_name t tag.

(* ===================================================================== *)
(** ** The ledger *)
(* ===================================================================== *)

(** [scan_date BETWEEN today_start AND today_end] *)
Definition between (lo hi x : datetime) : bool := (lo <=? x) && (x <=? hi).

(** The rows no other row is later than. *)
Definition latest_rows (rows : list OnsiteRow) : list OnsiteRow :=
  List.filter
    (fun r => forallb (fun r' => scan_date r' <=? scan_date r) rows) rows.

(** [ORDER BY scan_date DESC LIMIT 1].  MySQL leaves the order of rows with
    equal [scan_date] open; [pick] says which of them comes first. *)
Definition latest (pick : nat) (rows : list OnsiteRow) : option OnsiteRow :=
  let top := latest_rows rows in
  top !! (pick mod length top)%nat.

Definition todays_rows (tag : string) (today_start today_end : datetime)
    (rows : list OnsiteRow) : list OnsiteRow :=
  List.filter (fun r => String.eqb (tag_id r) tag
                        && between today_start today_end (scan_date r)) rows.

(** Returns [Some (Active, onsite_id)] or [None] for [(None, None)]. *)
Definition get_current_onsite_status (pick : nat) (t : Tables) (tag : string)
    (today_start today_end : datetime) : option (Z * Z) :=
  option_map (fun r => (Active r, onsite_id r))
    (latest pick (todays_rows tag today_start today_end (onsite t))).

(** The test [current_db_status_active == 1] of [on_tag_scan]: the id of
    the record to close when it holds, [None] when it does not (the latest
    record is not active, or there is no record today). *)
Definition currently_in (status : option (Z * Z)) : option Z :=
  match status with
  | Some (current_db_status_active, onsite_record_id) =>
      if current_db_status_active =? 1 then Some onsite_record_id else None
  | None => None
  end.

(** When the [INSERT] ends in [RetryError] the function returns nothing:
    the exception passes [except Error], and neither [rollback()] nor
    [return False] is reached. *)
Definition add_onsite_record_to_db (env : ScanEnv) (tag : string)
    (now : datetime) (w : World) : bool * World :=
  match mysql_db_call (onsite_execute env) with
  | Retry.GaveUp => (false, raise_exc RetryError w)
  | Retry.Propagated => (false, do_rollback w)
  | Retry.Value =>
      let w1 := emit (EvInsertOnsite tag now)
                  (set_connection (insert_onsite tag now (connection w)) w) in
      if onsite_commit_error env then (false, do_rollback w1)
      else (true, do_commit w1)
  end.

(** As [add_onsite_record_to_db], for the [UPDATE]. *)
Definition update_onsite_record_in_db (env : ScanEnv) (id : Z)
    (now : datetime) (w : World) : bool * World :=
  match mysql_db_call (onsite_execute env) with
  | Retry.GaveUp => (false, raise_exc RetryError w)
  | Retry.Propagated => (false, do_rollback w)
  | Retry.Value =>
      let w1 := emit (EvUpdateOnsite id now)
                  (set_connection (update_onsite id now (connection w)) w) in
      if onsite_commit_error env then (false, do_rollback w1)
      else (true, do_commit w1)
  end.

(* ===================================================================== *)
(** ** Sheet updates *)
(* ===================================================================== *)

Definition update_monthly_sheet_status (c : Caches) (assigned_name : string)
    (now_time : time_of_day) (current_db_status_active : Z) (w : World)
  : World :=
  match row_of (staff_name_to_month_row_index c) assigned_name with
  | None => w
  | Some row_index =>
      let cell := (row_index, today_col_index c) in
      if current_db_status_active =? 1 then
        let new_status :=
          if LATE_SIGNIN_TIME <? now_time then "Present(LATE)" else "Present" in
        let updates := [(cell, new_status)] in
        emit (EvMonthlyBatch updates)
          (set_month_sheet (batch_update updates (month_sheet w)) w)
      else if current_db_status_active =? 0 then w
      else w
  end.

Definition update_daily_sheet_row (c : Caches) (user_name new_status
    current_time_str : string) (w : World) : bool * World :=
  match row_of (staff_name_to_daily_row_index c) user_name with
  | None => (false, w)
  | Some row =>
      let updates := [((row, 3%nat), new_status);
                      ((row, 4%nat), current_time_str)] in
      (true, emit (EvDailyBatch updates)
               (set_daily_sheet (batch_update updates (daily_sheet w)) w))
  end.

(* ===================================================================== *)
(** ** Policy gates *)
(* ===================================================================== *)

Definition is_after_cutoff (current_time : time_of_day) : bool :=
  CUTOFF_TIME <? current_time.

Definition is_signin_allowed (current_time : time_of_day) : bool :=
  (SIGNIN_ALLOWED_TIME <=? current_time) && (current_time <=? CUTOFF_TIME).

(** [now] is the clock reading [check_cooldown] takes itself. *)
Definition check_cooldown (now : datetime)
    (taps : gmap string datetime) (user_name : string) : bool :=
  match taps !! user_name with
  | Some last =>
      let elapsed := now - last in
      if elapsed <? timedelta_minutes COOLDOWN_MINUTES then false else true
  | None => true
  end.

(* ===================================================================== *)
(** ** The scan processor *)
(* ===================================================================== *)

(** An exception of [get_assigned_name_and_tag], [add_onsite_record_to_db]
    or [update_onsite_record_in_db] leaves [on_tag_scan] at once: the world
    is the one at the raise, with [raised] set, and the boolean stands for
    no return value. *)
Definition on_tag_scan (env : ScanEnv) (c : Caches) (tag : string) (w : World)
  : bool * World :=
  let now := scan_now env in
  let current_time := dt_time now in
  let today_start := combine (dt_date now) time_min in
  let today_end := combine (dt_date now) time_max in
  let '(resolved, w1) := get_assigned_name_and_tag env tag w in
  match resolved with
  | None => (false, w1)   (* [return False], or the resolver has raised *)
  | Some (assigned_name, _) =>
      if negb (truthy assigned_name) then (false, w1)
      else if negb (check_cooldown (cooldown_now env) (last_tap_times w1)
                      assigned_name) then (false, w1)
      else if negb (is_signin_allowed current_time) then (false, w1)
      else
        let w2 :=
          set_last_tap_times
            (<[assigned_name := now]> (last_tap_times w1)) w1 in
        let status :=
          get_current_onsite_status (latest_pick env)
            (working (connection w2)) tag today_start today_end in
        let '(db_action_successful, w3, sheet_update_status,
              monthly_sheet_db_status) :=
          match currently_in status with
          | Some onsite_record_id =>
              let '(ok, w') :=
                update_onsite_record_in_db env onsite_record_id now w2 in
              (ok, w', "OUT", 0)
          | None =>
              let '(ok, w') := add_onsite_record_to_db env tag now w2 in
              (ok, w', "IN", 1)
          end in
        if db_action_successful then
          let w4 := update_monthly_sheet_status c assigned_name current_time
                      monthly_sheet_db_status w3 in
          let '(_, w5) := update_daily_sheet_row c assigned_name
                            sheet_update_status (strftime_HMS now) w4 in
          (true, w5)
        else (false, w3)   (* [return False], or the write has raised *)
  end.

(* ===================================================================== *)
(** ** The end-of-day sweeper *)
(* ===================================================================== *)

(** [SELECT onsite_id, tag_id FROM onsite
     WHERE Active = 1 AND scan_date BETWEEN %s AND %s], [fetchall()] *)
Definition select_active (t : Tables) (today_start today_end : datetime)
  : list OnsiteRow :=
  List.filter (fun r => (Active r =? 1)
                        && between today_start today_end (scan_date r))
    (onsite t).

(** How the [for] loop ends: it runs to its end, or an [UPDATE] raises an
    [Error], which the [except Error] clause of the sweep catches, or an
    [UPDATE] ends in [RetryError], which it does not catch. *)
Inductive LoopEnd :=
| Finished (daily_sheet_updates : list cell_update)
| Caught
| Escaped (e : Exc).

(** The body of the [for] loop over [users_to_mark_out], from its [k]-th
    element on.  When the loop is left by an exception the world is the one
    at the raise. *)
Fixpoint mark_out_loop (env : SweepEnv) (c : Caches) (now_str : string)
    (users : list OnsiteRow) (k : nat) (daily_sheet_updates : list cell_update)
    (w : World) : World * LoopEnd :=
  match users with
  | [] => (w, Finished daily_sheet_updates)
  | user_record :: rest =>
      let onsite_id := onsite_id user_record in
      let tag_id := tag_id user_record in
      match get_staff_name_by_tag_id (working (connection w)) tag_id with
      | Some assigned_name =>
          if negb (truthy assigned_name) then
            mark_out_loop env c now_str rest (S k) daily_sheet_updates w
          else
            let now := sweep_now_update env k in
            match mysql_db_call (update_execute env k) with
            | Retry.GaveUp => (w, Escaped RetryError)
            | Retry.Propagated => (w, Caught)
            | Retry.Value =>
                let w1 := emit (EvUpdateOnsite onsite_id now)
                            (set_connection
                               (update_onsite onsite_id now (connection w))
                               w) in
                let updates :=
                  match row_of (staff_name_to_daily_row_index c)
                          assigned_name with
                  | Some row =>
                      daily_sheet_updates ++
                      [((row, 3%nat), "OUT"); ((row, 4%nat), now_str)]
                  | None => daily_sheet_updates
                  end in
                mark_out_loop env c now_str rest (S k) updates w1
            end
      | None => mark_out_loop env c now_str rest (S k) daily_sheet_updates w
      end
  end.

(** A [RetryError] of an [UPDATE] passes the [except Error] clause: only
    the [finally] clause runs, which closes the cursor, and the exception
    leaves the function with the transaction still open. *)
Definition auto_mark_out_all_users (env : SweepEnv) (c : Caches) (w : World)
  : World :=
  let current_time := dt_time (sweep_now_cutoff env) in
  if is_after_cutoff current_time then
    let today_start := combine (dt_date (sweep_now_start env)) time_min in
    let today_end := combine (dt_date (sweep_now_end env)) time_max in
    let users_to_mark_out :=
      select_active (working (connection w)) today_start today_end in
    let now_str := strftime_HMS (sweep_now_str env) in
    match users_to_mark_out with
    | [] => w
    | _ :: _ =>
        if start_transaction_error env then do_rollback w
        else
          let w0 := emit EvStartTransaction w in
          match mark_out_loop env c now_str users_to_mark_out 0 [] w0 with
          | (w1, Escaped e) => raise_exc e w1
          | (w1, Caught) => do_rollback w1
          | (w1, Finished daily_sheet_updates) =>
              if sweep_commit_error env then do_rollback w1
              else
                let w2 := do_commit w1 in
                match daily_sheet_updates with
                | [] => w2
                | _ :: _ =>
                    emit (EvDailyBatch daily_sheet_updates)
                      (set_daily_sheet
                         (batch_update daily_sheet_updates (daily_sheet w2))
                         w2)
                end
          end
    end
  else w.

(* ===================================================================== *)
(** ** The script: module-level setup and the [__main__] block *)
(* ===================================================================== *)

Module Script.

Inductive Exn :=
| SystemExit (code : Z)
| MySQLError
| GSpreadException
| OtherException.

Inductive Completion (A : Type) :=
| Normal (a : A)
| Raise (e : Exn).
Arguments Normal {A} a.
Arguments Raise {A} e.

(** The three [except] clauses of the [__main__] block catch [Error],
    [GSpreadException] and [Exception]; [SystemExit] derives from
    [BaseException] and passes through them. *)
Definition caught (e : Exn) : bool :=
  match e with
  | SystemExit _ => false
  | MySQLError | GSpreadException | OtherException => true
  end.

(** [try: body / except ...: log / finally: fin].  An exception leaving
    the [finally] clause replaces whatever was pending. *)
Definition try_except_finally (body fin : Completion unit)
  : Completion unit :=
  let after_handlers :=
    match body with
    | Raise e => if caught e then Normal tt else Raise e
    | Normal _ => Normal tt
    end in
  match fin with
  | Raise e => Raise e
  | Normal _ => after_handlers
  end.

(** Exit status of the interpreter. *)
Definition exit_code (c : Completion unit) : Z :=
  match c with
  | Normal _ => 0
  | Raise (SystemExit code) => code
  | Raise _ => 1
  end.

(** What one run of the script reads from outside. *)
Record Invocation := mkInvocation {
  DB_HOST : option string;
  DB_NAME : option string;
  DB_USER : option string;
  DB_PASSWORD : option string;
  SHEET_ID : option string;
  (** [os.makedirs(LOCK_FILE_DIR)] raises [OSError] *)
  lock_dir_error : bool;
  (** the Google Sheets authentication block raises *)
  sheets_auth_error : bool;
  argv : list string;
  (** the line [input()] would return *)
  stdin_line : string;
  (** [acquire_lock()] returns a descriptor *)
  lock_acquired : bool;
  (** [get_db_connection()] returns a connection *)
  db_connected : bool;
  (** [today.strftime("%Y-%m-%d")] *)
  today_str : string;
  (** row 1 of the monthly sheet as [initialize_sheets] last reads it *)
  current_month_headers : list string;
  (** the two name caches [initialize_sheets] builds *)
  month_rows : gmap string nat;
  daily_rows : gmap string nat;
  scan_env : ScanEnv;
  sweep_env : SweepEnv
}.

(** Truth value of an [os.getenv] result. *)
Definition env_set (v : option string) : bool :=
  match v with Some s => truthy s | None => false end.

(** A [str] is held as its UTF-8 bytes.  The characters [str.strip()]
    removes are those of [str.isspace]: U+0009 to U+000D, U+001C to U+0020,
    U+0085, U+00A0, U+1680, U+2000 to U+200A, U+2028, U+2029, U+202F,
    U+205F and U+3000.  They take one, two or three bytes. *)
Definition is_space1 (a : nat) : bool :=
  ((9 <=? a) && (a <=? 13) || (28 <=? a) && (a <=? 32))%nat.

Definition is_space2 (a b : nat) : bool :=
  ((a =? 194) && ((b =? 133) || (b =? 160)))%nat.

Definition is_space3 (a b c : nat) : bool :=
  ((a =? 225) && (b =? 154) && (c =? 128)
   || (a =? 226) && (b =? 128)
      && ((128 <=? c) && (c <=? 138) || (c =? 168) || (c =? 169)
          || (c =? 175))
   || (a =? 226) && (b =? 129) && (c =? 159)
   || (a =? 227) && (b =? 128) && (c =? 128))%nat.

(** [forward] says whether the bytes of a character come in reading order
    or, for a reversed string, last byte first. *)
Fixpoint drop_spaces (forward : bool) (l : list nat) : list nat :=
  match l with
  | a :: rest =>
      if is_space1 a then drop_spaces forward rest
      else
        match rest with
        | b :: rest2 =>
            if (if forward then is_space2 a b else is_space2 b a)
            then drop_spaces forward rest2
            else
              match rest2 with
              | c :: rest3 =>
                  if (if forward then is_space3 a b c else is_space3 c b a)
                  then drop_spaces forward rest3
                  else l
              | [] => l
              end
        | [] => l
        end
  | [] => []
  end.

Definition bytes (s : string) : list nat :=
  map Ascii.nat_of_ascii (String.list_ascii_of_string s).
Definition of_bytes (l : list nat) : string :=
  String.string_of_list_ascii (map Ascii.ascii_of_nat l).

Definition lstrip (s : string) : string :=
  of_bytes (drop_spaces true (bytes s)).
Definition rstrip (s : string) : string :=
  of_bytes (rev (drop_spaces false (rev (bytes s)))).
Definition strip (s : string) : string := rstrip (lstrip s).

(** [str.lower] on the ASCII letters; no other character becomes one of
    the letters of the word the result is compared with. *)
Definition lower_ascii (a : Ascii.ascii) : Ascii.ascii :=
  let n := Ascii.nat_of_ascii a in
  if ((65 <=? n) && (n <=? 90))%nat then Ascii.ascii_of_nat (n + 32) else a.

Fixpoint lower (s : string) : string :=
  match s with
  | String a rest => String (lower_ascii a) (lower rest)
  | EmptyString => EmptyString
  end.

(** [list.index(x)], [None] for [ValueError]. *)
Fixpoint index (x : string) (l : list string) : option nat :=
  match l with
  | [] => None
  | y :: rest => if String.eqb y x then Some O
                 else option_map S (index x rest)
  end.

(** Lines 37-40, 55-62 and 85-93, which run at import. *)
Definition module_setup (inv : Invocation) : Completion unit :=
  if negb (forallb env_set [DB_HOST inv; DB_NAME inv; DB_USER inv;
                            DB_PASSWORD inv; SHEET_ID inv])
  then Raise (SystemExit 1)
  else if lock_dir_error inv then Raise (SystemExit 1)
  else if sheets_auth_error inv then Raise (SystemExit 1)
  else Normal tt.

(** The part of [initialize_sheets] that decides how it ends: the lookup
    of today's column, [sys.exit(1)] when it is missing. *)
Definition initialize_sheets (inv : Invocation) : Completion Caches :=
  match index (today_str inv) (current_month_headers inv) with
  | Some i => Normal (mkCaches (i + 1) (month_rows inv) (daily_rows inv))
  | None => Raise (SystemExit 1)
  end.

Definition read_tag (inv : Invocation) : string :=
  match argv inv with
  | _ :: a :: _ => strip a
  | _ => strip (stdin_line inv)
  end.

(** The body of the [try] statement.  An exception that left
    [on_tag_scan] skips the sweep; [RetryError] is an [Exception]. *)
Definition try_body (inv : Invocation) (example_tag_id : string) (w : World)
  : Completion unit * World :=
  if negb (lock_acquired inv) then (Raise (SystemExit 1), w)
  else if negb (db_connected inv) then (Raise (SystemExit 1), w)
  else
    match initialize_sheets inv with
    | Raise e => (Raise e, w)
    | Normal c =>
        if String.eqb (lower example_tag_id) "exit"
        then (Raise (SystemExit 0), w)
        else
          let '(_, w1) := on_tag_scan (scan_env inv) c example_tag_id w in
          match raised w1 with
          | Some _ => (Raise OtherException, w1)
          | None =>
              let w2 := auto_mark_out_all_users (sweep_env inv) c w1 in
              match raised w2 with
              | Some _ => (Raise OtherException, w2)
              | None => (Normal tt, w2)
              end
          end
    end.

(** The [finally] clause: close the connection, release the lock,
    [sys.exit(0)]. *)
Definition finally_clause : Completion unit := Raise (SystemExit 0).

(** The whole run: exit status and final world. *)
Definition main (inv : Invocation) (w : World) : Z * World :=
  match module_setup inv with
  | Raise e => (exit_code (Raise e), w)
  | Normal _ =>
      let example_tag_id := read_tag inv in
      if negb (truthy example_tag_id) then (exit_code (Raise (SystemExit 1)), w)
      else
        let '(body, w') := try_body inv example_tag_id w in
        (exit_code (try_except_finally body finally_clause), w')
  end.

End Script.

(* ===================================================================== *)
(** ** Shorthands for parts of [on_tag_scan] *)
(* ===================================================================== *)

(** The three policy gates of [on_tag_scan], in the order the code
    evaluates them: the name the tag resolves to when identity resolution,
    the cooldown and the time window all let the scan through, [None] when
    one of them rejects it. *)
Definition resolved_name (env : ScanEnv) (tag : string) (w : World)
  : option string :=
  match fst (get_assigned_name_and_tag env tag w) with
  | Some (assigned_name, _) =>
      if truthy assigned_name then Some assigned_name else None
  | None => None
  end.

Definition gates_pass (env : ScanEnv) (tag : string) (w : World)
  : option string :=
  match resolved_name env tag w with
  | Some assigned_name =>
      if check_cooldown (cooldown_now env) (last_tap_times w) assigned_name
         && is_signin_allowed (dt_time (scan_now env))
      then Some assigned_name else None
  | None => None
  end.

(** The write to [onsite] raises, at [execute] or at [commit]. *)
Definition ledger_write_fails (env : ScanEnv) : bool :=
  onsite_execute_error env || onsite_commit_error env.

(** Today's window of a scan and the status the scan reads in it. *)
Definition today_start (now : datetime) : datetime :=
  combine (dt_date now) time_min.
Definition today_end (now : datetime) : datetime :=
  combine (dt_date now) time_max.

Definition status_today (pick : nat) (now : datetime) (tag : string)
    (c : Connection) : option (Z * Z) :=
  get_current_onsite_status pick (working c) tag (today_start now)
    (today_end now).

(** Events that touch a spreadsheet, and events that write the ledger. *)
Definition is_sheet_event (e : Event) : bool :=
  match e with
  | EvMonthlyBatch _ | EvDailyBatch _ => true
  | _ => false
  end.

Definition is_monthly_event (e : Event) : bool :=
  match e with
  | EvMonthlyBatch _ => true
  | _ => false
  end.

(** What the run appended to the log. *)
Definition new_events (w w' : World) : list Event :=
  drop (length (log w)) (log w').

(** A monthly cell holds a Present value. *)
Definition is_present (v : option string) : Prop :=
  v = Some "Present" \/ v = Some "Present(LATE)".


(** The world after the gates have passed: the registry entry is set. *)
Definition after_gates (env : ScanEnv) (tag name : string) (w : World)
  : World :=
  let w1 := snd (get_assigned_name_and_tag env tag w) in
  set_last_tap_times (<[name := scan_now env]> (last_tap_times w1)) w1.

(** The two sheet updates that follow a successful ledger write. *)
Definition project (env : ScanEnv) (c : Caches) (name status : string)
    (monthly : Z) (w : World) : World :=
  snd (update_daily_sheet_row c name status (strftime_HMS (scan_now env))
         (update_monthly_sheet_status c name (dt_time (scan_now env))
            monthly w)).

(* ===================================================================== *)
(** ** Vocabulary of the statements: identities *)
(* ===================================================================== *)

(** [x] is the first element of the list with the property. *)
Inductive first_with {A : Type} (P : A -> Prop) : list A -> A -> Prop :=
| first_here (x : A) (l : list A) : P x -> first_with P (x :: l) x
| first_later (y : A) (l : list A) (x : A) :
    ~ P y -> first_with P l x -> first_with P (y :: l) x.

(** The tag has a row in [Staff]. *)
Definition known (t : Tables) (tag : string) : Prop :=
  exists r, In r (Staff t) /\ staff_tag_id r = tag.

(** The name of the tag's row in [Staff], in [sign]. *)
Definition staff_named (t : Tables) (tag name : string) : Prop :=
  exists r, first_with (fun r => staff_tag_id r = tag) (Staff t) r /\
            staff_Name r = name.

Definition bound_to (t : Tables) (tag name : string) : Prop :=
  exists r, first_with (fun r => sign_tag_id r = tag) (sign t) r /\
            sign_Name r = name.

(** The tag has no row in [sign]. *)
Definition unbound (t : Tables) (tag : string) : Prop :=
  forall r, In r (sign t) -> sign_tag_id r <> tag.

(** The identity of a tag: it is a tag of [Staff], and the name is the one
    [sign] binds it to or, when [sign] has no row for it, the name of its
    [Staff] row. *)
Definition assigned (t : Tables) (tag name : string) : Prop :=
  known t tag /\
  (bound_to t tag name \/ (unbound t tag /\ staff_named t tag name)).


(** Every policy gate lets the scan of [name]'s tag through: the tag has
    the identity [name], which is not the empty string; a binding that is
    missing can be written; no tap of [name] is less than the cooldown
    ago; the time of day is inside the window. *)
Definition admitted (env : ScanEnv) (tag : string) (w : World)
    (name : string) : Prop :=
  let t := working (connection w) in
  assigned t tag name /\ name <> "" /\
  (unbound t tag ->
   mysql_db_call (sign_insert env) = Retry.Value /\
   sign_commit_error env = false) /\
  (forall last, last_tap_times w !! name = Some last ->
                timedelta_minutes COOLDOWN_MINUTES <= cooldown_now env - last)
  /\
  SIGNIN_ALLOWED_TIME <= dt_time (scan_now env) <= CUTOFF_TIME.


(** The row numbers the sheet caches hold for a name; a missing name and
    row 0 both count as not found. *)
Definition month_row (c : Caches) (name : string) (row : nat) : Prop :=
  staff_name_to_month_row_index c !! name = Some row /\ row <> O.
Definition daily_row (c : Caches) (name : string) (row : nat) : Prop :=
  staff_name_to_daily_row_index c !! name = Some row /\ row <> O.

(* ===================================================================== *)
(** ** Vocabulary of the statements: the ledger *)
(* ===================================================================== *)

(** A record of the tag whose scan falls on the day. *)
Definition of_day (tag : string) (day : date) (r : OnsiteRow) : Prop :=
  tag_id r = tag /\ dt_date (scan_date r) = day.

(** A most recent record of the tag on the day. *)
Definition most_recent (tag : string) (day : date) (rows : list OnsiteRow)
    (r : OnsiteRow) : Prop :=
  In r rows /\ of_day tag day r /\
  forall r', In r' rows -> of_day tag day r' -> scan_date r' <= scan_date r.

(** A sign-in: one new active record of the tag, scanned at [now], is
    appended. *)
Definition signs_in (tag : string) (now : datetime)
    (before after : list OnsiteRow) : Prop :=
  exists id,
    after = before ++ [{| onsite_id := id; tag_id := tag; scan_date := now;
                          Active := 1; sign_out_date := None |}].

(** A sign-out: a most recent record of the tag on the day, which is
    active, becomes inactive with [now] as its sign-out time; it keeps its
    place, its id, its tag and its scan time, and no other record
    changes. *)
Definition signs_out (tag : string) (day : date) (now : datetime)
    (before after : list OnsiteRow) : Prop :=
  exists pre r post,
    before = pre ++ r :: post /\
    most_recent tag day before r /\ Active r = 1 /\
    after = pre ++ {| onsite_id := onsite_id r; tag_id := tag_id r;
                      scan_date := scan_date r; Active := 0;
                      sign_out_date := Some now |} :: post.


(* ===================================================================== *)
(** ** Sequences of scans of one tag *)
(* ===================================================================== *)


(** One scan of a run: its environment, the world before and after it and
    what [on_tag_scan] returned. *)
Record Step := mkStep {
  st_env : ScanEnv;
  st_before : World;
  st_ok : bool;
  st_after : World
}.

(** The scans [envs] of [tag], one after the other. *)
Fixpoint scan_all (c : Caches) (tag : string) (envs : list ScanEnv)
    (w : World) : list Step :=
  match envs with
  | [] => []
  | env :: rest =>
      let r := on_tag_scan env c tag w in
      mkStep env w (fst r) (snd r) :: scan_all c tag rest (snd r)
  end.




(** The committed ledger between two scans of [tag] on [day]: no
    transaction is open, ids are distinct and below the counter, the tag's
    records of the day are not later than [bound], and an active one among
    them is strictly later than every other one. *)
Definition ledger_inv (tag : string) (day : date) (bound : datetime)
    (c : Connection) : Prop :=
  let rows := onsite (committed c) in
  clean c /\
  NoDup (map onsite_id rows) /\
  (forall r, In r rows -> onsite_id r < next_onsite_id c) /\
  (forall r, In r rows -> of_day tag day r -> scan_date r <= bound) /\
  (forall (i j : nat) r r',
     rows !! i = Some r -> rows !! j = Some r' -> i <> j ->
     of_day tag day r -> of_day tag day r' -> Active r = 1 ->
     scan_date r' < scan_date r).



(* ===================================================================== *)
(** ** Vocabulary of the sweep statements *)
(* ===================================================================== *)

(** The sweep finds a usable staff name for the tag. *)
Definition resolves (t : Tables) (tag : string) : bool :=
  match get_staff_name_by_tag_id t tag with
  | Some assigned_name => truthy assigned_name
  | None => false
  end.

(** The row is active and inside the window: the [WHERE] clause of the
    sweep's query. *)
Definition selected (lo hi : datetime) (r : OnsiteRow) : bool :=
  (Active r =? 1) && between lo hi (scan_date r).

Definition is_update_event (e : Event) : bool :=
  match e with
  | EvUpdateOnsite _ _ => true
  | _ => false
  end.

(** The sweep's window, from its own two clock readings. *)
Definition sweep_start (env : SweepEnv) : datetime :=
  combine (dt_date (sweep_now_start env)) time_min.
Definition sweep_end (env : SweepEnv) : datetime :=
  combine (dt_date (sweep_now_end env)) time_max.

(** The record is active and was scanned today, where today runs from the
    date of the sweep's first reading of the clock to that of its second. *)
Definition open_today (env : SweepEnv) (r : OnsiteRow) : bool :=
  (Active r =? 1)
  && (dt_date (sweep_now_start env) <=? dt_date (scan_date r))
  && (dt_date (scan_date r) <=? dt_date (sweep_now_end env)).

(** The tag has a row in [Staff] with a name that is not empty. *)
Definition resolvable (t : Tables) (tag : string) : Prop :=
  exists name, staff_named t tag name /\ name <> "".

(** The number of records before the [i]-th that are open today: the
    number of the loop iteration that handles the [i]-th record. *)
Definition turn (env : SweepEnv) (rows : list OnsiteRow) (i : nat) : nat :=
  length (List.filter (open_today env) (take i rows)).

(** Iteration [k] of the sweep's loop issues an [UPDATE]: its record is
    open today and its tag resolves. *)
Definition updates_at (env : SweepEnv) (t : Tables) (k : nat) : Prop :=
  exists (i : nat) r,
    onsite t !! i = Some r /\ open_today env r = true /\
    resolvable t (tag_id r) /\ turn env (onsite t) i = k.



(** The staged daily-sheet updates are OUT in column 3 and the time string
    in column 4. *)
Definition staged_shape (now_str : string) (u : cell_update) : Prop :=
  exists row : nat, u = ((row, 3%nat), "OUT") \/ u = ((row, 4%nat), now_str).

(* ===================================================================== *)
(** ** Sample data *)
(* ===================================================================== *)

Module Sample.

(** One staff member, tag T1, nobody assigned yet, an empty ledger. *)
Definition staff : list StaffRow := [mkStaff "T1" "Alice" "Ops"].
Definition tables : Tables := mkTables staff [] [].
Definition conn : Connection := mkConnection tables tables 1.
Definition world : World := mkWorld conn ∅ ∅ ∅ [] None.

(** Alice is on row 2 of both sheets, today is column 4. *)
Definition caches : Caches :=
  mkCaches 4 (<["Alice" := 2%nat]> ∅) (<["Alice" := 2%nat]> ∅).

Definition day : date := 739000.
Definition at_time (hour minute : Z) : datetime :=
  combine day (time hour minute).

(** Attempts that return at once; attempts that raise an [Error] the
    decorator does not retry; attempts that raise [OperationalError] every
    time. *)
Definition returns : nat -> Retry.Attempt := fun _ => Retry.Returns.
Definition raises_error : nat -> Retry.Attempt := fun _ => Retry.RaisesOther.
Definition keeps_raising : nat -> Retry.Attempt :=
  fun _ => Retry.RaisesRetryable.

(** A scan at the given time of day during which no database call fails. *)
Definition scan_at (hour minute : Z) : ScanEnv :=
  mkScanEnv (at_time hour minute) (at_time hour minute)
    returns false 0 returns false.

(** The same scan with the [execute] of the [onsite] write raising an
    [Error] that is not retried. *)
Definition failing_scan_at (hour minute : Z) : ScanEnv :=
  mkScanEnv (at_time hour minute) (at_time hour minute)
    returns false 0 raises_error false.

(** The same scan with the [execute] of the [onsite] write raising
    [OperationalError] at every attempt. *)
Definition unreachable_scan_at (hour minute : Z) : ScanEnv :=
  mkScanEnv (at_time hour minute) (at_time hour minute)
    returns false 0 keeps_raising false.

(** The world after Alice's accepted 07:00 sign-in. *)
Definition open_world : World :=
  snd (on_tag_scan (scan_at 7 0) caches "T1" world).

(** A sweep whose clock readings are all the given time of day, with the
    given outcome of [commit]. *)
Definition sweep_at (hour minute : Z) (commit_error : bool) : SweepEnv :=
  mkSweepEnv (at_time hour minute) (at_time hour minute)
    (at_time hour minute) (at_time hour minute)
    (fun _ => at_time hour minute) false (fun _ => returns) commit_error.

(** A run of the script with a complete configuration and the tag given
    on the command line; the outcome of [acquire_lock] and of
    [get_db_connection] and the header row of the monthly sheet vary. *)
Definition invocation (tag : string) (lock db : bool)
    (headers : list string) : Script.Invocation :=
  Script.mkInvocation (Some "db.local") (Some "attendance") (Some "clerk")
    (Some "secret") (Some "sheet-1") false false
    ["attendance.py"; tag] "" lock db "2024-04-24" headers
    (<["Alice" := 2%nat]> ∅) (<["Alice" := 2%nat]> ∅)
    (scan_at 7 0) (sweep_at 7 0 false).

Definition headers : list string :=
  ["Name"; "2024-04-22"; "2024-04-23"; "2024-04-24"].

End Sample.

Module Orphan.

(** An open record of tag T9 from 07:00 whose [Staff] row is gone. *)
Definition ledger : list OnsiteRow :=
  [mkOnsite 1 "T9" (Sample.at_time 7 0) 1 None].
Definition orphan_tables : Tables := mkTables Sample.staff [] ledger.
Definition orphan_world : World :=
  mkWorld (mkConnection orphan_tables orphan_tables 2) ∅ ∅ ∅ [] None.

End Orphan.

Module Pair.

(** Two staff members, both signed in this morning; Bob has no row in the
    daily sheet. *)
Definition staff : list StaffRow :=
  [mkStaff "T1" "Alice" "Ops"; mkStaff "T2" "Bob" "Lab"].
Definition bindings : list SignRow := [mkSign "T1" "Alice"; mkSign "T2" "Bob"].
Definition ledger : list OnsiteRow :=
  [mkOnsite 1 "T1" (Sample.at_time 7 0) 1 None;
   mkOnsite 2 "T2" (Sample.at_time 7 30) 1 None].
Definition tables : Tables := mkTables staff bindings ledger.
Definition world : World :=
  mkWorld (mkConnection tables tables 3) ∅ ∅ ∅ [] None.

(** The 17:00 sweep whose [k]-th iteration reads the clock [k] seconds
    past 17:00 and whose second [UPDATE] does what [second] says. *)
Definition sweep (second : nat -> Retry.Attempt) : SweepEnv :=
  mkSweepEnv (Sample.at_time 17 0) (Sample.at_time 17 0)
    (Sample.at_time 17 0) (Sample.at_time 17 0)
    (fun k => Sample.at_time 17 0 + Z.of_nat k * US_PER_SECOND) false
    (fun k => match k with 1%nat => second | _ => Sample.returns end)
    false.

End Pair.

(* ===================================================================== *)
(** * Properties *)
(* ===================================================================== *)

(* ===================================================================== *)
(** ** Identity resolution: what it leaves alone *)
(* ===================================================================== *)

Section Resolver.
Variables (env : ScanEnv) (tag : string) (w : World).

Lemma resolver_frame :
  month_sheet (snd (get_assigned_name_and_tag env tag w)) = month_sheet w /\
  daily_sheet (snd (get_assigned_name_and_tag env tag w)) = daily_sheet w /\
  last_tap_times (snd (get_assigned_name_and_tag env tag w))
  = last_tap_times w /\
  next_onsite_id (connection (snd (get_assigned_name_and_tag env tag w)))
  = next_onsite_id (connection w).
Proof.
  unfold get_assigned_name_and_tag.
  repeat case_match; simpl; auto.
Qed.

Lemma resolver_working_onsite :
  is_Some (fst (get_assigned_name_and_tag env tag w)) ->
  onsite (working (connection (snd (get_assigned_name_and_tag env tag w))))
  = onsite (working (connection w)) /\
  Staff (working (connection (snd (get_assigned_name_and_tag env tag w))))
  = Staff (working (connection w)).
Proof.
  unfold get_assigned_name_and_tag.
  repeat case_match; simpl; intros [x Hx]; try discriminate; auto.
Qed.

Lemma resolver_clean :
  clean (connection w) ->
  clean (connection (snd (get_assigned_name_and_tag env tag w))) /\
  onsite (committed (connection (snd (get_assigned_name_and_tag env tag w))))
  = onsite (committed (connection w)) /\
  onsite (working (connection (snd (get_assigned_name_and_tag env tag w))))
  = onsite (working (connection w)) /\
  Staff (working (connection (snd (get_assigned_name_and_tag env tag w))))
  = Staff (working (connection w)).
Proof.
  unfold get_assigned_name_and_tag, clean.
  repeat case_match; simpl; intros Hc; rewrite ?Hc; auto.
Qed.

Lemma resolver_log :
  exists evs,
    log (snd (get_assigned_name_and_tag env tag w)) = log w ++ evs /\
    Forall (fun e => is_sheet_event e = false) evs.
Proof.
  unfold get_assigned_name_and_tag, do_rollback, do_commit.
  repeat case_match; simpl;
    try (exists []; rewrite app_nil_r; split; [reflexivity | constructor]);
    rewrite <- ?app_assoc; simpl; eexists; (split; [reflexivity|]);
    repeat constructor.
Qed.

(** The resolver raises only when the [INSERT INTO sign] gives up. *)
Lemma resolver_raised :
  is_Some (fst (get_assigned_name_and_tag env tag w)) \/
  mysql_db_call (sign_insert env) <> Retry.GaveUp ->
  raised (snd (get_assigned_name_and_tag env tag w)) = raised w.
Proof.
  unfold get_assigned_name_and_tag.
  repeat case_match; simpl; intros [[x Hx]|Hx]; try discriminate;
    try congruence; auto.
Qed.

End Resolver.

(* ===================================================================== *)
(** ** The scan processor, case by case *)
(* ===================================================================== *)

Lemma on_tag_scan_rejected env c tag w :
  gates_pass env tag w = None ->
  on_tag_scan env c tag w = (false, snd (get_assigned_name_and_tag env tag w)).
Proof.
  unfold gates_pass, resolved_name, on_tag_scan.
  pose proof (resolver_frame env tag w) as (_ & _ & Ht & _).
  destruct (get_assigned_name_and_tag env tag w) as [[[n t]|] w1]; simpl in *;
    [|reflexivity].
  rewrite Ht.
  destruct (truthy n); simpl; [|reflexivity].
  destruct (check_cooldown _ _ n); simpl; [|reflexivity].
  destruct (is_signin_allowed _); simpl; [discriminate | reflexivity].
Qed.

Lemma on_tag_scan_passed env c tag w name :
  gates_pass env tag w = Some name ->
  on_tag_scan env c tag w =
    let w2 := after_gates env tag name w in
    match currently_in (status_today (latest_pick env) (scan_now env) tag
                          (connection w2)) with
    | Some id =>
        let r := update_onsite_record_in_db env id (scan_now env) w2 in
        if fst r then (true, project env c name "OUT" 0 (snd r))
        else (false, snd r)
    | None =>
        let r := add_onsite_record_to_db env tag (scan_now env) w2 in
        if fst r then (true, project env c name "IN" 1 (snd r))
        else (false, snd r)
    end.
Proof.
  unfold gates_pass, resolved_name, on_tag_scan, after_gates, project,
    status_today, today_start, today_end.
  pose proof (resolver_frame env tag w) as (_ & _ & Ht & _).
  destruct (get_assigned_name_and_tag env tag w) as [[[n t]|] w1]; simpl in *;
    [|discriminate].
  rewrite Ht.
  destruct (truthy n); simpl; [|discriminate].
  destruct (check_cooldown _ _ n); simpl; [|discriminate].
  destruct (is_signin_allowed _); simpl; [|discriminate].
  intros [= ->].
  destruct (currently_in _).
  - destruct (update_onsite_record_in_db _ _ _ _) as [[] w3]; simpl;
      [|reflexivity].
    destruct (update_daily_sheet_row _ _ _ _ _); reflexivity.
  - destruct (add_onsite_record_to_db _ _ _ _) as [[] w3]; simpl;
      [|reflexivity].
    destruct (update_daily_sheet_row _ _ _ _ _); reflexivity.
Qed.

(* ===================================================================== *)
(** ** Ledger writes *)
(* ===================================================================== *)

Lemma new_events_app w w' evs :
  log w' = log w ++ evs -> new_events w w' = evs.
Proof.
  unfold new_events. intros ->. apply drop_app_length.
Qed.

Ltac log_suffix :=
  simpl; rewrite <- ?app_assoc; simpl;
  eexists; (split; [reflexivity|]); repeat constructor.

Section Writes.
Variables (env : ScanEnv) (now : datetime) (w : World).

Lemma add_onsite_ok tag :
  fst (add_onsite_record_to_db env tag now w) = negb (ledger_write_fails env).
Proof.
  unfold add_onsite_record_to_db, ledger_write_fails, onsite_execute_error.
  destruct (mysql_db_call (onsite_execute env)),
    (onsite_commit_error env); reflexivity.
Qed.

Lemma update_onsite_ok id :
  fst (update_onsite_record_in_db env id now w)
  = negb (ledger_write_fails env).
Proof.
  unfold update_onsite_record_in_db, ledger_write_fails, onsite_execute_error.
  destruct (mysql_db_call (onsite_execute env)),
    (onsite_commit_error env); reflexivity.
Qed.





Lemma add_onsite_failed tag :
  clean (connection w) ->
  ledger_write_fails env = true ->
  let w' := snd (add_onsite_record_to_db env tag now w) in
  committed (connection w') = committed (connection w) /\
  working (connection w') = committed (connection w) /\
  month_sheet w' = month_sheet w /\ daily_sheet w' = daily_sheet w /\
  last_tap_times w' = last_tap_times w /\
  exists evs, log w' = log w ++ evs /\
              Forall (fun e => is_sheet_event e = false) evs.
Proof.
  unfold add_onsite_record_to_db, ledger_write_fails, onsite_execute_error,
    do_rollback, clean.
  intros Hc.
  destruct (mysql_db_call (onsite_execute env)), (onsite_commit_error env);
    simpl; try discriminate; intros _; repeat split; auto;
    try (exists []; rewrite app_nil_r; split; [reflexivity | constructor]);
    log_suffix.
Qed.

Lemma update_onsite_failed id :
  clean (connection w) ->
  ledger_write_fails env = true ->
  let w' := snd (update_onsite_record_in_db env id now w) in
  committed (connection w') = committed (connection w) /\
  working (connection w') = committed (connection w) /\
  month_sheet w' = month_sheet w /\ daily_sheet w' = daily_sheet w /\
  last_tap_times w' = last_tap_times w /\
  exists evs, log w' = log w ++ evs /\
              Forall (fun e => is_sheet_event e = false) evs.
Proof.
  unfold update_onsite_record_in_db, ledger_write_fails, onsite_execute_error,
    do_rollback, clean.
  intros Hc.
  destruct (mysql_db_call (onsite_execute env)), (onsite_commit_error env);
    simpl; try discriminate; intros _; repeat split; auto;
    try (exists []; rewrite app_nil_r; split; [reflexivity | constructor]);
    log_suffix.
Qed.

Lemma add_onsite_done tag :
  ledger_write_fails env = false ->
  let w' := snd (add_onsite_record_to_db env tag now w) in
  connection w' = commit (insert_onsite tag now (connection w)) /\
  month_sheet w' = month_sheet w /\ daily_sheet w' = daily_sheet w /\
  last_tap_times w' = last_tap_times w /\
  raised w' = raised w /\
  log w' = log w ++ [EvInsertOnsite tag now; EvCommit].
Proof.
  unfold add_onsite_record_to_db, ledger_write_fails, onsite_execute_error,
    do_commit.
  destruct (mysql_db_call (onsite_execute env)), (onsite_commit_error env);
    simpl; try discriminate; intros _; repeat split.
  now rewrite <- app_assoc.
Qed.

Lemma update_onsite_done id :
  ledger_write_fails env = false ->
  let w' := snd (update_onsite_record_in_db env id now w) in
  connection w' = commit (update_onsite id now (connection w)) /\
  month_sheet w' = month_sheet w /\ daily_sheet w' = daily_sheet w /\
  last_tap_times w' = last_tap_times w /\
  raised w' = raised w /\
  log w' = log w ++ [EvUpdateOnsite id now; EvCommit].
Proof.
  unfold update_onsite_record_in_db, ledger_write_fails, onsite_execute_error,
    do_commit.
  destruct (mysql_db_call (onsite_execute env)), (onsite_commit_error env);
    simpl; try discriminate; intros _; repeat split.
  now rewrite <- app_assoc.
Qed.

Lemma add_onsite_registry tag :
  last_tap_times (snd (add_onsite_record_to_db env tag now w))
  = last_tap_times w.
Proof.
  unfold add_onsite_record_to_db.
  destruct (mysql_db_call (onsite_execute env)), (onsite_commit_error env);
    reflexivity.
Qed.

Lemma update_onsite_registry id :
  last_tap_times (snd (update_onsite_record_in_db env id now w))
  = last_tap_times w.
Proof.
  unfold update_onsite_record_in_db.
  destruct (mysql_db_call (onsite_execute env)), (onsite_commit_error env);
    reflexivity.
Qed.

End Writes.

Lemma after_gates_frame env tag name w :
  let w2 := after_gates env tag name w in
  connection w2 = connection (snd (get_assigned_name_and_tag env tag w)) /\
  month_sheet w2 = month_sheet w /\ daily_sheet w2 = daily_sheet w /\
  last_tap_times w2 = <[name := scan_now env]> (last_tap_times w) /\
  log w2 = log (snd (get_assigned_name_and_tag env tag w)) /\
  raised w2 = raised (snd (get_assigned_name_and_tag env tag w)).
Proof.
  unfold after_gates.
  pose proof (resolver_frame env tag w) as (Hm & Hd & Ht & _).
  simpl. rewrite Hm, Hd, Ht. repeat split.
Qed.

Lemma project_frame env c name status monthly w :
  connection (project env c name status monthly w) = connection w /\
  last_tap_times (project env c name status monthly w) = last_tap_times w /\
  raised (project env c name status monthly w) = raised w.
Proof.
  unfold project, update_daily_sheet_row, update_monthly_sheet_status.
  repeat case_match; simpl; auto.
Qed.

Lemma scan_failure_frame env c tag w :
  clean (connection w) ->
  gates_pass env tag w = None \/ ledger_write_fails env = true ->
  let r := on_tag_scan env c tag w in
  fst r = false /\
  onsite (committed (connection (snd r))) = onsite (committed (connection w)) /\
  onsite (working (connection (snd r))) = onsite (working (connection w)) /\
  clean (connection (snd r)) /\
  month_sheet (snd r) = month_sheet w /\
  daily_sheet (snd r) = daily_sheet w /\
  Forall (fun e => is_sheet_event e = false) (new_events w (snd r)).
Proof.
  intros Hclean Hfail.
  pose proof (resolver_frame env tag w) as (Hm & Hd & Ht & _).
  pose proof (resolver_clean env tag w Hclean) as (Hc1 & Hoc & How & _).
  pose proof (resolver_log env tag w) as (evs & Hlog & Hevs).
  destruct (gates_pass env tag w) as [name|] eqn:Hg.
  - destruct Hfail as [|Hfail]; [discriminate|].
    cbv zeta. rewrite (on_tag_scan_passed _ _ _ _ _ Hg). cbv zeta.
    pose proof (after_gates_frame env tag name w)
      as (Hc2 & Hm2 & Hd2 & _ & Hl2 & _).
    cbv zeta in *.
    destruct (currently_in _) as [id|].
    + rewrite update_onsite_ok, Hfail. simpl.
      assert (Hcl2 : clean (connection (after_gates env tag name w)))
        by (cbv zeta in Hc2; now rewrite Hc2).
      pose proof (update_onsite_failed env (scan_now env)
                    (after_gates env tag name w) id Hcl2 Hfail)
        as (Hc & Hw & Hm' & Hd' & _ & evs' & Hl' & Hevs').
      cbv zeta in *. unfold clean in *.
      rewrite Hc, Hw, Hm', Hd', Hc2, Hm2, Hd2, Hoc.
      repeat split; try congruence.
      rewrite (new_events_app w _ (evs ++ evs')).
      * apply Forall_app; auto.
      * rewrite Hl', Hl2, Hlog. now rewrite app_assoc.
    + rewrite add_onsite_ok, Hfail. simpl.
      assert (Hcl2 : clean (connection (after_gates env tag name w)))
        by (cbv zeta in Hc2; now rewrite Hc2).
      pose proof (add_onsite_failed env (scan_now env)
                    (after_gates env tag name w) tag Hcl2 Hfail)
        as (Hc & Hw & Hm' & Hd' & _ & evs' & Hl' & Hevs').
      cbv zeta in *. unfold clean in *.
      rewrite Hc, Hw, Hm', Hd', Hc2, Hm2, Hd2, Hoc.
      repeat split; try congruence.
      rewrite (new_events_app w _ (evs ++ evs')).
      * apply Forall_app; auto.
      * rewrite Hl', Hl2, Hlog. now rewrite app_assoc.
  - cbv zeta. rewrite (on_tag_scan_rejected _ _ _ _ Hg). simpl.
    repeat split; auto.
    now rewrite (new_events_app _ _ _ Hlog).
Qed.


(** ** C4 *)

Lemma cooldown_is_18_seconds :
  timedelta_minutes COOLDOWN_MINUTES = 18 * US_PER_SECOND.
Proof. reflexivity. Qed.

(** C4.  For a name with a recorded tap, [check_cooldown] rejects exactly
    when the time elapsed since that tap is strictly less than
    [COOLDOWN_MINUTES] (18 seconds); at exactly that much or more it
    passes; a name with no recorded tap always passes. *)
Theorem check_cooldown_spec (now : datetime) (taps : gmap string datetime)
    (user : string) :
  timedelta_minutes COOLDOWN_MINUTES = 18 * US_PER_SECOND /\
  match taps !! user with
  | Some last =>
      (check_cooldown now taps user = false <->
       now - last < timedelta_minutes COOLDOWN_MINUTES) /\
      (timedelta_minutes COOLDOWN_MINUTES <= now - last ->
       check_cooldown now taps user = true)
  | None => check_cooldown now taps user = true
  end.
Proof.
  split; [exact cooldown_is_18_seconds|].
  unfold check_cooldown. destruct (taps !! user) as [last|]; [|reflexivity].
  cbv zeta.
  destruct (Z.ltb_spec (now - last) (timedelta_minutes COOLDOWN_MINUTES)).
  - split; [split; [intros _; assumption | reflexivity] | lia].
  - split; [split; [discriminate | lia] | reflexivity].
Qed.

(** ** C5 *)

Lemma is_signin_allowed_iff t :
  is_signin_allowed t = true <-> SIGNIN_ALLOWED_TIME <= t <= CUTOFF_TIME.
Proof.
  unfold is_signin_allowed. rewrite andb_true_iff, !Z.leb_le. tauto.
Qed.

Lemma gates_pass_window env tag w name :
  gates_pass env tag w = Some name ->
  is_signin_allowed (dt_time (scan_now env)) = true /\
  check_cooldown (cooldown_now env) (last_tap_times w) name = true /\
  resolved_name env tag w = Some name.
Proof.
  unfold gates_pass.
  destruct (resolved_name env tag w) as [n|]; [|discriminate].
  destruct (check_cooldown _ _ n) eqn:Hc; simpl; [|discriminate].
  destruct (is_signin_allowed _); [|discriminate].
  intros [= <-]. auto.
Qed.

(** C5.  The time-window gate passes exactly when
    [SIGNIN_ALLOWED_TIME <= current_time <= CUTOFF_TIME], both ends
    included; a scan whose time of day is outside that interval is
    rejected whatever the ledger holds, and the ledger is left as it was. *)
Theorem time_window_gate env c tag w :
  clean (connection w) ->
  (forall t, is_signin_allowed t = true <->
             SIGNIN_ALLOWED_TIME <= t <= CUTOFF_TIME) /\
  (~ (SIGNIN_ALLOWED_TIME <= dt_time (scan_now env) <= CUTOFF_TIME) ->
   fst (on_tag_scan env c tag w) = false /\
   onsite (committed (connection (snd (on_tag_scan env c tag w))))
   = onsite (committed (connection w)) /\
   onsite (working (connection (snd (on_tag_scan env c tag w))))
   = onsite (working (connection w))).
Proof.
  intros Hclean. split; [apply is_signin_allowed_iff|].
  intros Hout.
  assert (Hg : gates_pass env tag w = None).
  { destruct (gates_pass env tag w) as [n|] eqn:Hg; [|reflexivity].
    apply gates_pass_window in Hg as (Ha & _).
    apply is_signin_allowed_iff in Ha. contradiction. }
  pose proof (scan_failure_frame env c tag w Hclean
                (or_introl Hg)) as (H1 & H2 & H3 & _).
  auto.
Qed.

(** ** C6 *)

Lemma scan_registry env c tag w :
  last_tap_times (snd (on_tag_scan env c tag w)) =
  match gates_pass env tag w with
  | Some name => <[name := scan_now env]> (last_tap_times w)
  | None => last_tap_times w
  end.
Proof.
  destruct (gates_pass env tag w) as [name|] eqn:Hg.
  - rewrite (on_tag_scan_passed _ _ _ _ _ Hg). cbv zeta.
    pose proof (after_gates_frame env tag name w) as (_ & _ & _ & Ht & _).
    cbv zeta in Ht.
    destruct (ledger_write_fails env) eqn:Hf.
    + destruct (currently_in _) as [id|].
      * rewrite update_onsite_ok, Hf. simpl.
        now rewrite update_onsite_registry.
      * rewrite add_onsite_ok, Hf. simpl.
        now rewrite add_onsite_registry.
    + destruct (currently_in _) as [id|].
      * rewrite update_onsite_ok, Hf. simpl.
        pose proof (update_onsite_done env (scan_now env)
                      (after_gates env tag name w) id Hf)
          as (_ & _ & _ & Ht' & _). cbv zeta in Ht'.
        pose proof (project_frame env c name "OUT" 0
                      (snd (update_onsite_record_in_db env id (scan_now env)
                              (after_gates env tag name w)))) as (_ & Hp & _).
        congruence.
      * rewrite add_onsite_ok, Hf. simpl.
        pose proof (add_onsite_done env (scan_now env)
                      (after_gates env tag name w) tag Hf)
          as (_ & _ & _ & Ht' & _). cbv zeta in Ht'.
        pose proof (project_frame env c name "IN" 1
                      (snd (add_onsite_record_to_db env tag (scan_now env)
                              (after_gates env tag name w)))) as (_ & Hp & _).
        congruence.
  - rewrite (on_tag_scan_rejected _ _ _ _ Hg). simpl.
    apply (resolver_frame env tag w).
Qed.

(** C6, as the code has it.  The registry entry of a name is set to the
    scan's own clock reading exactly when identity resolution, the cooldown
    and the time window all let the scan through, before the ledger write
    and whatever its outcome; a scan that a gate rejects leaves the
    registry as it was. *)
Theorem registry_updated_when_gates_pass env c tag w :
  last_tap_times (snd (on_tag_scan env c tag w)) =
  match gates_pass env tag w with
  | Some name => <[name := scan_now env]> (last_tap_times w)
  | None => last_tap_times w
  end.
Proof. exact (scan_registry env c tag w). Qed.

(** C6, as stated, fails: the 07:00 scan of T1 passes the gates, its
    [INSERT INTO onsite] raises, [on_tag_scan] returns [False], and the
    registry has gained the entry of Alice all the same. *)
Lemma registry_changed_by_failed_write :
  let r := on_tag_scan (Sample.failing_scan_at 7 0) Sample.caches "T1"
             Sample.world in
  ledger_write_fails (Sample.failing_scan_at 7 0) = true /\
  fst r = false /\
  last_tap_times Sample.world !! "Alice" = None /\
  last_tap_times (snd r) !! "Alice" = Some (Sample.at_time 7 0).
Proof. vm_compute. repeat split; reflexivity. Qed.

(** ** C10 *)

Lemma scan_keeps_committed_sign env c tag w :
  clean (connection w) ->
  sign (committed (connection (snd (on_tag_scan env c tag w)))) =
  sign (committed (connection (snd (get_assigned_name_and_tag env tag w)))).
Proof.
  intros Hclean.
  pose proof (resolver_clean env tag w Hclean) as (Hc1 & _).
  destruct (gates_pass env tag w) as [name|] eqn:Hg.
  - rewrite (on_tag_scan_passed _ _ _ _ _ Hg). cbv zeta.
    pose proof (after_gates_frame env tag name w) as (Hc2 & _). cbv zeta in Hc2.
    assert (Hcl2 : clean (connection (after_gates env tag name w)))
      by now rewrite Hc2.
    unfold clean in Hc1.
    destruct (ledger_write_fails env) eqn:Hf.
    + destruct (currently_in _) as [id|].
      * rewrite update_onsite_ok, Hf. simpl.
        pose proof (update_onsite_failed env (scan_now env)
                      (after_gates env tag name w) id Hcl2 Hf) as (Hc & _).
        cbv zeta in Hc. congruence.
      * rewrite add_onsite_ok, Hf. simpl.
        pose proof (add_onsite_failed env (scan_now env)
                      (after_gates env tag name w) tag Hcl2 Hf) as (Hc & _).
        cbv zeta in Hc. congruence.
    + destruct (currently_in _) as [id|].
      * rewrite update_onsite_ok, Hf. simpl.
        pose proof (update_onsite_done env (scan_now env)
                      (after_gates env tag name w) id Hf) as (Hc & _).
        cbv zeta in Hc.
        pose proof (project_frame env c name "OUT" 0
                      (snd (update_onsite_record_in_db env id (scan_now env)
                              (after_gates env tag name w)))) as (Hp & _).
        rewrite Hp, Hc, Hc2. simpl. now rewrite Hc1.
      * rewrite add_onsite_ok, Hf. simpl.
        pose proof (add_onsite_done env (scan_now env)
                      (after_gates env tag name w) tag Hf) as (Hc & _).
        cbv zeta in Hc.
        pose proof (project_frame env c name "IN" 1
                      (snd (add_onsite_record_to_db env tag (scan_now env)
                              (after_gates env tag name w)))) as (Hp & _).
        rewrite Hp, Hc, Hc2. simpl. now rewrite Hc1.
  - now rewrite (on_tag_scan_rejected _ _ _ _ Hg).
Qed.

(** C10.  When the tag has a [Staff] row and no [sign] row and the insert
    goes through, identity resolution inserts the binding and commits it
    before any later gate is looked at: the committed [sign] table has the
    new row when [get_assigned_name_and_tag] returns and still has it when
    [on_tag_scan] returns, also when the cooldown or the time window then
    rejects the scan (which leaves [onsite] as it was). *)
Theorem assignment_row_survives_rejection env c tag w name :
  clean (connection w) ->
  select_sign_name (working (connection w)) tag = None ->
  select_staff_name (working (connection w)) tag = Some name ->
  sign_insert_error env = false ->
  sign_commit_error env = false ->
  let w1 := snd (get_assigned_name_and_tag env tag w) in
  let r := on_tag_scan env c tag w in
  fst (get_assigned_name_and_tag env tag w) = Some (name, tag) /\
  sign (committed (connection w1))
  = sign (committed (connection w)) ++ [mkSign tag name] /\
  sign (committed (connection (snd r)))
  = sign (committed (connection w)) ++ [mkSign tag name] /\
  (check_cooldown (cooldown_now env) (last_tap_times w) name = false \/
   is_signin_allowed (dt_time (scan_now env)) = false ->
   fst r = false /\
   onsite (committed (connection (snd r))) = onsite (committed (connection w))).
Proof.
  intros Hclean Hsign Hstaff Hie Hce. cbv zeta.
  assert (Hres : get_assigned_name_and_tag env tag w =
                 (Some (name, tag),
                  do_commit (emit (EvInsertSign tag name)
                    (set_connection (insert_sign tag name (connection w)) w)))).
  { unfold get_assigned_name_and_tag. rewrite Hsign, Hstaff, Hce.
    unfold sign_insert_error in Hie.
    now destruct (mysql_db_call (sign_insert env)). }
  assert (H1 : sign (committed (connection
                 (snd (get_assigned_name_and_tag env tag w))))
               = sign (committed (connection w)) ++ [mkSign tag name]).
  { rewrite Hres. simpl. unfold clean in Hclean. now rewrite Hclean. }
  split; [now rewrite Hres|]. split; [exact H1|].
  split; [now rewrite scan_keeps_committed_sign|].
  intros Hrej.
  assert (Hg : gates_pass env tag w = None).
  { unfold gates_pass, resolved_name. rewrite Hres. simpl.
    destruct (truthy name); [|reflexivity].
    destruct Hrej as [-> | ->]; [reflexivity|].
    now rewrite andb_false_r. }
  pose proof (scan_failure_frame env c tag w Hclean (or_introl Hg))
    as (Hf & Ho & _).
  auto.
Qed.

(* ===================================================================== *)
(** ** Identities: the queries and the vocabulary *)
(* ===================================================================== *)

Lemma find_first_with {A} (f : A -> bool) (P : A -> Prop) (l : list A) :
  (forall x, f x = true <-> P x) ->
  forall x, List.find f l = Some x <-> first_with P l x.
Proof.
  intros Hf. induction l as [|a l IH]; intros x; simpl.
  - split; [discriminate | inversion 1].
  - destruct (f a) eqn:Ha.
    + split.
      * intros [= <-]. constructor. now apply Hf.
      * intros H. inversion H as [? ? HP | ? ? ? HnP Hrest]; subst;
          [reflexivity|].
        exfalso. apply HnP. now apply Hf.
    + split.
      * intros Hx. apply first_later; [|now apply IH].
        intros HP. apply Hf in HP. congruence.
      * intros H. inversion H as [? ? HP | ? ? ? HnP Hrest]; subst.
        -- apply Hf in HP. congruence.
        -- now apply IH.
Qed.

Lemma find_nothing {A} (f : A -> bool) (P : A -> Prop) (l : list A) :
  (forall x, f x = true <-> P x) ->
  List.find f l = None <-> forall x, In x l -> ~ P x.
Proof.
  intros Hf. induction l as [|a l IH]; simpl.
  - split; [intros _ x [] | reflexivity].
  - destruct (f a) eqn:Ha.
    + split; [discriminate|]. intros H. exfalso.
      apply (H a); [now left | now apply Hf].
    + rewrite IH. split.
      * intros H x [<-|Hx]; [|now apply H].
        intros HP. apply Hf in HP. congruence.
      * intros H x Hx. apply H. now right.
Qed.

Lemma truthy_iff (s : string) : truthy s = true <-> s <> "".
Proof. destruct s; simpl; split; congruence. Qed.

Section Queries.
Variables (t : Tables) (tag : string).

Lemma sign_tag_reflect (r : SignRow) :
  String.eqb (sign_tag_id r) tag = true <-> sign_tag_id r = tag.
Proof. apply String.eqb_eq. Qed.

Lemma staff_tag_reflect (r : StaffRow) :
  String.eqb (staff_tag_id r) tag = true <-> staff_tag_id r = tag.
Proof. apply String.eqb_eq. Qed.

Lemma select_sign_name_bound name :
  select_sign_name t tag = Some name <-> bound_to t tag name.
Proof.
  unfold select_sign_name, bound_to.
  destruct (List.find _ (sign t)) as [r|] eqn:Hfind; simpl.
  - apply (find_first_with _ _ _ sign_tag_reflect) in Hfind. split.
    + intros [= <-]. eauto.
    + intros (r' & Hr' & <-).
      apply (find_first_with _ _ _ sign_tag_reflect) in Hfind, Hr'.
      congruence.
  - split; [discriminate|]. intros (r' & Hr' & _).
    apply (find_first_with _ _ _ sign_tag_reflect) in Hr'. congruence.
Qed.

Lemma select_sign_name_unbound :
  select_sign_name t tag = None <-> unbound t tag.
Proof.
  unfold select_sign_name, unbound.
  rewrite <- (find_nothing _ _ (sign t) sign_tag_reflect).
  destruct (List.find _ (sign t)); simpl; split; congruence.
Qed.

Lemma select_staff_name_named name :
  select_staff_name t tag = Some name <-> staff_named t tag name.
Proof.
  unfold select_staff_name, staff_named.
  destruct (List.find _ (Staff t)) as [r|] eqn:Hfind; simpl.
  - apply (find_first_with _ _ _ staff_tag_reflect) in Hfind. split.
    + intros [= <-]. eauto.
    + intros (r' & Hr' & <-).
      apply (find_first_with _ _ _ staff_tag_reflect) in Hfind, Hr'.
      congruence.
  - split; [discriminate|]. intros (r' & Hr' & _).
    apply (find_first_with _ _ _ staff_tag_reflect) in Hr'. congruence.
Qed.

Lemma staff_find_known :
  List.find (fun r => String.eqb (staff_tag_id r) tag) (Staff t) = None
  <-> ~ known t tag.
Proof.
  rewrite (find_nothing _ _ (Staff t) staff_tag_reflect). unfold known.
  split.
  - intros H (r & Hin & Hr). exact (H r Hin Hr).
  - intros H r Hin Hr. apply H. eauto.
Qed.

Lemma select_staff_tag_unknown :
  select_staff_tag t tag = None <-> ~ known t tag.
Proof.
  rewrite <- staff_find_known. unfold select_staff_tag.
  destruct (List.find _ (Staff t)); simpl; split; congruence.
Qed.

Lemma select_staff_name_unknown :
  select_staff_name t tag = None <-> ~ known t tag.
Proof.
  rewrite <- staff_find_known. unfold select_staff_name.
  destruct (List.find _ (Staff t)); simpl; split; congruence.
Qed.

Lemma known_dec : known t tag \/ ~ known t tag.
Proof.
  destruct (List.find (fun r => String.eqb (staff_tag_id r) tag) (Staff t))
    as [r|] eqn:Hf.
  - left. exists r. apply find_some in Hf as [Hin Heq].
    split; [exact Hin | now apply String.eqb_eq].
  - right. now apply staff_find_known.
Qed.

Lemma staff_named_known name : staff_named t tag name -> known t tag.
Proof.
  intros Hn. apply select_staff_name_named in Hn.
  destruct known_dec as [Hk|Hk]; [exact Hk|].
  apply select_staff_name_unknown in Hk. congruence.
Qed.

Lemma select_staff_tag_known tg :
  select_staff_tag t tag = Some tg -> known t tag.
Proof.
  intros Hs. destruct known_dec as [Hk|Hk]; [exact Hk|].
  apply select_staff_tag_unknown in Hk. congruence.
Qed.

Lemma resolves_iff : resolves t tag = true <-> resolvable t tag.
Proof.
  unfold resolves, resolvable, get_staff_name_by_tag_id.
  destruct (select_staff_name t tag) as [name|] eqn:Hs.
  - rewrite truthy_iff. split.
    + intros Hn. exists name. split; [|exact Hn].
      now apply select_staff_name_named.
    + intros (name' & Hn' & Hne). apply select_staff_name_named in Hn'.
      congruence.
  - split; [discriminate|]. intros (name' & Hn' & _).
    apply select_staff_name_named in Hn'. congruence.
Qed.

End Queries.

Lemma check_cooldown_iff now taps name :
  check_cooldown now taps name = true <->
  forall last, taps !! name = Some last ->
               timedelta_minutes COOLDOWN_MINUTES <= now - last.
Proof.
  unfold check_cooldown. destruct (taps !! name) as [last|].
  - destruct (Z.ltb_spec (now - last) (timedelta_minutes COOLDOWN_MINUTES)).
    + split; [discriminate|]. intros H'. specialize (H' last eq_refl). lia.
    + split; [|reflexivity]. intros _ last' [= <-]. exact H.
  - split; [|reflexivity]. intros _ last'. discriminate.
Qed.

(** What identity resolution returns, in terms of the tables. *)
Lemma resolver_assigned env tag w name tag' :
  fst (get_assigned_name_and_tag env tag w) = Some (name, tag') ->
  tag' = tag /\
  assigned (working (connection w)) tag name /\
  (unbound (working (connection w)) tag ->
   mysql_db_call (sign_insert env) = Retry.Value /\
   sign_commit_error env = false).
Proof.
  unfold get_assigned_name_and_tag, assigned.
  destruct (select_sign_name _ tag) as [n|] eqn:Hsign.
  - destruct (select_staff_tag _ tag) eqn:Hstaff; simpl; [|discriminate].
    intros [= <- <-]. split; [reflexivity|]. split.
    + split.
      * eapply select_staff_tag_known, Hstaff.
      * left. now apply select_sign_name_bound.
    + intros Hu. apply select_sign_name_unbound in Hu. congruence.
  - destruct (select_staff_name _ tag) as [n|] eqn:Hstaff; simpl;
      [|discriminate].
    destruct (mysql_db_call (sign_insert env)); simpl; try discriminate.
    destruct (sign_commit_error env); simpl; [discriminate|].
    intros [= <- <-]. split; [reflexivity|].
    apply select_staff_name_named in Hstaff.
    apply select_sign_name_unbound in Hsign.
    split; [|auto]. split; [eapply staff_named_known; eauto|]. right. auto.
Qed.

Lemma assigned_resolver env tag w name :
  assigned (working (connection w)) tag name ->
  (unbound (working (connection w)) tag ->
   mysql_db_call (sign_insert env) = Retry.Value /\
   sign_commit_error env = false) ->
  fst (get_assigned_name_and_tag env tag w) = Some (name, tag).
Proof.
  unfold get_assigned_name_and_tag, assigned.
  intros [Hk [Hb | [Hu Hn]]] Hins.
  - apply select_sign_name_bound in Hb. rewrite Hb.
    destruct (select_staff_tag _ tag) eqn:Hs; [reflexivity|].
    apply select_staff_tag_unknown in Hs. contradiction.
  - destruct (Hins Hu) as [Hv Hc].
    apply select_sign_name_unbound in Hu. rewrite Hu.
    apply select_staff_name_named in Hn. rewrite Hn, Hv, Hc. reflexivity.
Qed.


(** The gates as the code evaluates them and as the vocabulary states
    them. *)
Lemma gates_pass_admitted env tag w name :
  gates_pass env tag w = Some name <-> admitted env tag w name.
Proof.
  unfold gates_pass, resolved_name, admitted. split.
  - destruct (fst (get_assigned_name_and_tag env tag w)) as [[n tg]|] eqn:Hr;
      [|discriminate].
    apply resolver_assigned in Hr as (_ & Ha & Hins).
    destruct (truthy n) eqn:Htr; [|discriminate].
    destruct (check_cooldown _ _ n) eqn:Hcd; [|discriminate].
    destruct (is_signin_allowed _) eqn:Hw; [|discriminate].
    simpl. intros [= <-].
    split; [exact Ha|]. split; [now apply truthy_iff|].
    split; [exact Hins|]. split; [now apply check_cooldown_iff|].
    now apply is_signin_allowed_iff.
  - intros (Ha & Hne & Hins & Hcd & Hw).
    rewrite (assigned_resolver env tag w name Ha Hins).
    apply truthy_iff in Hne. rewrite Hne.
    apply check_cooldown_iff in Hcd. rewrite Hcd.
    apply is_signin_allowed_iff in Hw. rewrite Hw. reflexivity.
Qed.


(* ===================================================================== *)
(** ** The sweep loop *)
(* ===================================================================== *)

Lemma batch_update_app (us vs : list cell_update) (s : gmap cell string) :
  batch_update (us ++ vs) s = batch_update vs (batch_update us s).
Proof. unfold batch_update. apply fold_left_app. Qed.

Lemma batch_update_other (us : list cell_update) (s : gmap cell string)
    (x : cell) :
  ~ In x (map fst us) -> batch_update us s !! x = s !! x.
Proof.
  revert s. induction us as [|u us IH]; intros s Hx; [reflexivity|].
  simpl in *. change (batch_update us (<[u.1:=u.2]> s) !! x = s !! x).
  rewrite IH by tauto. apply lookup_insert_ne. tauto.
Qed.

Lemma batch_update_agree (us : list cell_update) (s : gmap cell string)
    (x : cell) (v : string) :
  In x (map fst us) ->
  (forall u, In u us -> fst u = x -> snd u = v) ->
  batch_update us s !! x = Some v.
Proof.
  revert s. induction us as [|u us IH]; intros s Hx Hv; [contradiction|].
  change (batch_update us (<[u.1:=u.2]> s) !! x = Some v).
  destruct (in_dec (prod_eq_dec) x (map fst us)) as [Hin|Hout].
  - apply IH; [exact Hin|]. intros u' Hu'. apply Hv. now right.
  - rewrite batch_update_other by exact Hout.
    destruct Hx as [Hx|Hx]; [|contradiction].
    rewrite Hx, lookup_insert_eq. f_equal. apply Hv; [now left | exact Hx].
Qed.

Lemma NoDup_map_eq {A B} (f : A -> B) l x y :
  NoDup (map f l) -> In x l -> In y l -> f x = f y -> x = y.
Proof.
  induction l as [|a l IH]; simpl; [contradiction|].
  intros Hnd Hx Hy Hf.
  apply NoDup_cons in Hnd as [Ha Hnd].
  assert (Hnot : forall z, In z l -> f a <> f z).
  { intros z Hz Heq. apply Ha. rewrite Heq.
    apply list_elem_of_In, in_map, Hz. }
  destruct Hx as [<-|Hx], Hy as [<-|Hy]; auto.
  - exfalso. eapply Hnot; eauto.
  - exfalso. eapply Hnot; eauto.
Qed.

Lemma lookup_In {A} (l : list A) (i : nat) (x : A) :
  l !! i = Some x -> In x l.
Proof. intros H. apply list_elem_of_In. eapply list_elem_of_lookup_2, H. Qed.

(** The [UPDATE] on a table with distinct ids: row by row. *)
Lemma update_onsite_out_lookup id now rows (i : nat) r :
  rows !! i = Some r ->
  update_onsite_out id now rows !! i
  = Some (if onsite_id r =? id then mark_out now r else r).
Proof.
  intros H. unfold update_onsite_out.
  rewrite list_lookup_fmap_Some. exists r. split; [reflexivity|exact H].
Qed.

Lemma update_onsite_out_ids id now rows :
  map onsite_id (update_onsite_out id now rows) = map onsite_id rows.
Proof.
  unfold update_onsite_out. rewrite map_map. apply map_ext.
  intros r. now destruct (onsite_id r =? id).
Qed.

Lemma update_onsite_out_length id now rows :
  length (update_onsite_out id now rows) = length rows.
Proof. unfold update_onsite_out. apply length_map. Qed.

Lemma resolves_staff t t' tag :
  Staff t = Staff t' -> resolves t tag = resolves t' tag.
Proof.
  unfold resolves, get_staff_name_by_tag_id, select_staff_name.
  now intros ->.
Qed.

Section Loop.
Variables (env : SweepEnv) (c : Caches) (now_str : string).

Lemma mark_out_loop_frame users : forall k ups w,
  let r := mark_out_loop env c now_str users k ups w in
  committed (connection (fst r)) = committed (connection w) /\
  Staff (working (connection (fst r))) = Staff (working (connection w)) /\
  sign (working (connection (fst r))) = sign (working (connection w)) /\
  next_onsite_id (connection (fst r)) = next_onsite_id (connection w) /\
  month_sheet (fst r) = month_sheet w /\
  daily_sheet (fst r) = daily_sheet w /\
  last_tap_times (fst r) = last_tap_times w /\
  raised (fst r) = raised w /\
  length (onsite (working (connection (fst r))))
  = length (onsite (working (connection w))) /\
  exists evs, log (fst r) = log w ++ evs /\
              Forall (fun e => is_update_event e = true) evs.
Proof.
  induction users as [|u users IH]; intros k ups w; cbv zeta.
  - simpl. repeat split. exists []. now rewrite app_nil_r.
  - simpl.
    destruct (get_staff_name_by_tag_id _ _) as [name|]; [|apply IH].
    destruct (truthy name); simpl; [|apply IH].
    destruct (mysql_db_call (update_execute env k)).
    + match goal with |- context [mark_out_loop _ _ _ _ ?k' ?u' ?w'] =>
        pose proof (IH k' u' w')
          as (H1 & H2 & H3 & H4 & H5 & H6 & H7 & H8 & H9 & evs & H10 & H11)
      end.
      cbv zeta in *. simpl in *.
      rewrite update_onsite_out_length in H9.
      repeat split; try assumption.
      eexists. rewrite H10, <- app_assoc. split; [reflexivity|].
      constructor; [reflexivity | assumption].
    + simpl. repeat split. exists []. now rewrite app_nil_r.
    + simpl. repeat split. exists []. now rewrite app_nil_r.
Qed.


(** The loop runs to its end when every [UPDATE] it issues returns. *)
Lemma mark_out_loop_finishes users : forall k ups w,
  (forall (j : nat) u,
     users !! j = Some u ->
     resolves (working (connection w)) (tag_id u) = true ->
     mysql_db_call (update_execute env (k + j)) = Retry.Value) ->
  exists w' ups',
    mark_out_loop env c now_str users k ups w = (w', Finished ups').
Proof.
  induction users as [|u users IH]; intros k ups w Hok; simpl.
  - eauto.
  - assert (Hrest : forall w1,
              Staff (working (connection w1)) = Staff (working (connection w))
              -> exists w' ups',
                mark_out_loop env c now_str users (S k)
                  ups w1 = (w', Finished ups')).
    { intros w1 Hs. apply IH. intros j u' Hj Hres.
      replace (S k + j)%nat with (k + S j)%nat by lia.
      apply (Hok (S j) u'); [exact Hj|].
      now rewrite <- (resolves_staff _ _ _ Hs). }
    pose proof (Hok O u eq_refl) as H0. rewrite Nat.add_0_r in H0.
    unfold resolves in H0.
    destruct (get_staff_name_by_tag_id _ _) as [name|]; [|now apply Hrest].
    destruct (truthy name); simpl; [|now apply Hrest].
    rewrite (H0 eq_refl).
    apply IH. intros j u' Hj Hres.
    replace (S k + j)%nat with (k + S j)%nat by lia.
    apply (Hok (S j) u'); [exact Hj|].
    rewrite <- Hres. now apply resolves_staff.
Qed.

(** What a finished loop has done to the rows of the table: a row whose id
    no user record carries is as it was; a row whose id is carried by the
    [j]-th user record, and by no other, is closed at the clock reading of
    that iteration when the tag resolves and is as it was when it does
    not. *)
Lemma mark_out_loop_lookup users : forall k ups w w' ups',
  mark_out_loop env c now_str users k ups w = (w', Finished ups') ->
  forall (i : nat) r,
    onsite (working (connection w)) !! i = Some r ->
    ((forall u, In u users -> onsite_id u <> onsite_id r) ->
     onsite (working (connection w')) !! i = Some r) /\
    (forall (j : nat) u,
       users !! j = Some u -> onsite_id u = onsite_id r ->
       (forall (j' : nat) u', users !! j' = Some u' ->
                              onsite_id u' = onsite_id r -> j' = j) ->
       onsite (working (connection w')) !! i
       = Some (if resolves (working (connection w)) (tag_id u)
               then mark_out (sweep_now_update env (k + j)) r else r)).
Proof.
  induction users as [|u0 users IH]; intros k ups w w' ups'; simpl.
  - intros [= <- <-] i r Hi. split; [auto|]. intros j u Hj. discriminate.
  - intros Hloop i r Hi.
    (* the state after the first iteration *)
    assert (Hstep : exists w1 ups1,
              mark_out_loop env c now_str users (S k) ups1 w1
              = (w', Finished ups') /\
              Staff (working (connection w1)) = Staff (working (connection w))
              /\
              onsite (working (connection w1)) !! i
              = Some (if (onsite_id r =? onsite_id u0)
                         && resolves (working (connection w)) (tag_id u0)
                      then mark_out (sweep_now_update env k) r else r)).
    { unfold resolves.
      destruct (get_staff_name_by_tag_id _ _) as [name|].
      - destruct (truthy name); simpl in *.
        + destruct (mysql_db_call (update_execute env k)); try discriminate.
          eexists _, _. split; [exact Hloop|]. split; [reflexivity|].
          simpl. rewrite (update_onsite_out_lookup _ _ _ _ _ Hi).
          now rewrite andb_true_r.
        + exists w, ups. rewrite andb_false_r. auto.
      - exists w, ups. rewrite andb_false_r. auto. }
    destruct Hstep as (w1 & ups1 & Hloop1 & Hstaff & Hi1).
    set (r1 := if (onsite_id r =? onsite_id u0)
                  && resolves (working (connection w)) (tag_id u0)
               then mark_out (sweep_now_update env k) r else r) in *.
    assert (Hid1 : onsite_id r1 = onsite_id r).
    { unfold r1. now destruct (_ && _). }
    destruct (IH _ _ _ _ _ Hloop1 i r1 Hi1) as [IHa IHb].
    split.
    + intros Hno.
      assert (Hne : (onsite_id r =? onsite_id u0) = false).
      { apply Z.eqb_neq. intros Heq. apply (Hno u0); [now left | easy]. }
      rewrite IHa.
      * unfold r1. now rewrite Hne.
      * intros u Hu. rewrite Hid1. apply Hno. now right.
    + intros j u Hj Hid Huniq.
      destruct j as [|j]; simpl in Hj.
      * injection Hj as <-.
        rewrite IHa.
        -- unfold r1. rewrite Nat.add_0_r.
           replace (onsite_id r =? onsite_id u0) with true
             by (symmetry; apply Z.eqb_eq; congruence).
           reflexivity.
        -- intros u Hu Heq. rewrite Hid1 in Heq.
           apply list_elem_of_In, list_elem_of_lookup_1 in Hu as [j' Hj'].
           specialize (Huniq (S j') u Hj' Heq). discriminate.
      * assert (Hne : (onsite_id r =? onsite_id u0) = false).
        { apply Z.eqb_neq. intros Heq.
          specialize (Huniq O u0 eq_refl (eq_sym Heq)). discriminate. }
        assert (Hr1 : r1 = r) by (unfold r1; now rewrite Hne).
        rewrite (IHb j u Hj).
        -- rewrite Hr1, (resolves_staff _ _ _ Hstaff).
           now replace (S k + j)%nat with (k + S j)%nat by lia.
        -- now rewrite Hid1.
        -- intros j' u' Hj' Heq. rewrite Hid1 in Heq.
           specialize (Huniq (S j') u' Hj' Heq). lia.
Qed.

(** Updates already staged stay staged. *)
Lemma mark_out_loop_keeps users : forall k ups w w' ups',
  mark_out_loop env c now_str users k ups w = (w', Finished ups') ->
  forall x, In x ups -> In x ups'.
Proof.
  induction users as [|u users IH]; intros k ups w w' ups'; simpl.
  - intros [= <- <-]. auto.
  - destruct (get_staff_name_by_tag_id _ _) as [name|]; [|apply IH].
    destruct (truthy name); simpl; [|apply IH].
    destruct (mysql_db_call (update_execute env k)); try discriminate.
    intros Hloop x Hx. eapply IH; [exact Hloop|].
    destruct (row_of _ name); [apply in_or_app; now left | exact Hx].
Qed.

Lemma mark_out_loop_staged users : forall k ups w w' ups',
  mark_out_loop env c now_str users k ups w = (w', Finished ups') ->
  Forall (staged_shape now_str) ups ->
  Forall (staged_shape now_str) ups' /\
  forall u name row,
    In u users ->
    get_staff_name_by_tag_id (working (connection w)) (tag_id u) = Some name ->
    truthy name = true ->
    row_of (staff_name_to_daily_row_index c) name = Some row ->
    In (row, 3%nat) (map fst ups') /\ In (row, 4%nat) (map fst ups').
Proof.
  induction users as [|u users IH]; intros k ups w w' ups'; simpl.
  - intros [= <- <-] Hups. split; [exact Hups | contradiction].
  - destruct (get_staff_name_by_tag_id _ _) as [name|] eqn:Hname.
    + destruct (truthy name) eqn:Htr; simpl.
      * destruct (mysql_db_call (update_execute env k)); try discriminate.
        intros Hloop Hups.
        pose proof (IH _ _ _ _ _ Hloop) as IH'.
        pose proof (mark_out_loop_keeps _ _ _ _ _ _ Hloop) as Hkeep.
        destruct (row_of _ name) as [row|] eqn:Hrow.
        -- destruct IH' as (Hs & Hin).
           { apply Forall_app. split; [exact Hups|].
             repeat constructor; exists row; auto. }
           split; [exact Hs|].
           intros u' name' row' [<-|Hu'] Hn' Ht' Hr'.
           ++ assert (name' = name) by congruence. subst name'.
              assert (row' = row) by congruence. subst row'.
              split.
              ** apply (in_map fst) with (x := ((row, 3%nat), "OUT")).
                 apply Hkeep, in_or_app. right. now left.
              ** apply (in_map fst) with (x := ((row, 4%nat), now_str)).
                 apply Hkeep, in_or_app. right. right. now left.
           ++ apply (Hin u' name' row'); auto.
        -- destruct IH' as (Hs & Hin); [exact Hups|].
           split; [exact Hs|].
           intros u' name' row' [<-|Hu'] Hn' Ht' Hr'.
           ++ congruence.
           ++ apply (Hin u' name' row'); auto.
      * intros Hloop Hups.
        destruct (IH _ _ _ _ _ Hloop Hups) as (Hs & Hin).
        split; [exact Hs|].
        intros u' name' row' [<-|Hu'] Hn' Ht' Hr'; [congruence|].
        apply (Hin u' name' row'); auto.
    + intros Hloop Hups.
      destruct (IH _ _ _ _ _ Hloop Hups) as (Hs & Hin).
      split; [exact Hs|].
      intros u' name' row' [<-|Hu'] Hn' Ht' Hr'; [congruence|].
      apply (Hin u' name' row'); auto.
Qed.

(** Nothing else is staged: every staged cell belongs to the daily row of
    the name of a user record. *)
Lemma mark_out_loop_staged_only users : forall k ups w w' ups',
  mark_out_loop env c now_str users k ups w = (w', Finished ups') ->
  forall x, In x ups' ->
    In x ups \/
    exists u name row,
      In u users /\
      get_staff_name_by_tag_id (working (connection w)) (tag_id u)
      = Some name /\
      truthy name = true /\
      row_of (staff_name_to_daily_row_index c) name = Some row /\
      (x = ((row, 3%nat), "OUT") \/ x = ((row, 4%nat), now_str)).
Proof.
  induction users as [|u users IH]; intros k ups w w' ups'; simpl.
  - intros [= <- <-]. auto.
  - assert (Hskip : forall w1 ups1,
      Staff (working (connection w1)) = Staff (working (connection w)) ->
      (forall x, In x ups1 ->
         In x ups \/
         exists u' name row,
           (u = u' \/ In u' users) /\
           get_staff_name_by_tag_id (working (connection w)) (tag_id u')
           = Some name /\
           truthy name = true /\
           row_of (staff_name_to_daily_row_index c) name = Some row /\
           (x = ((row, 3%nat), "OUT") \/ x = ((row, 4%nat), now_str))) ->
      mark_out_loop env c now_str users (S k) ups1 w1 = (w', Finished ups') ->
      forall x, In x ups' ->
        In x ups \/
        exists u' name row,
          (u = u' \/ In u' users) /\
          get_staff_name_by_tag_id (working (connection w)) (tag_id u')
          = Some name /\
          truthy name = true /\
          row_of (staff_name_to_daily_row_index c) name = Some row /\
          (x = ((row, 3%nat), "OUT") \/ x = ((row, 4%nat), now_str))).
    { intros w1 ups1 Hstaff Hups1 Hloop x Hx.
      destruct (IH _ _ _ _ _ Hloop x Hx)
        as [H|(u' & n & row & H1 & H2 & H3)]; [now apply Hups1|].
      right. exists u', n, row. split; [now right|].
      split; [|exact H3].
      rewrite <- H2. unfold get_staff_name_by_tag_id, select_staff_name.
      now rewrite Hstaff. }
    destruct (get_staff_name_by_tag_id _ _) as [name|] eqn:Hname;
      [|apply Hskip; auto].
    destruct (truthy name) eqn:Htr; simpl; [|apply Hskip; auto].
    destruct (mysql_db_call (update_execute env k)); try discriminate.
    apply Hskip; [reflexivity|].
    intros x Hx.
    destruct (row_of _ name) as [row|] eqn:Hrow; [|now left].
    apply in_app_or in Hx as [Hx|Hx]; [now left|].
    right. exists u, name, row. split; [now left|].
    split; [exact Hname|]. split; [exact Htr|]. split; [exact Hrow|].
    destruct Hx as [<-|[<-|[]]]; auto.
Qed.

End Loop.

(* ===================================================================== *)
(** ** The sweep *)
(* ===================================================================== *)

Lemma is_after_cutoff_iff t : is_after_cutoff t = true <-> CUTOFF_TIME < t.
Proof. unfold is_after_cutoff. apply Z.ltb_lt. Qed.

(** A window from the start of one day to the end of another holds the
    datetimes whose date lies between the two. *)
Lemma between_days (d1 d2 : date) (x : datetime) :
  between (combine d1 time_min) (combine d2 time_max) x
  = (d1 <=? dt_date x) && (dt_date x <=? d2).
Proof.
  unfold between, combine, dt_date, time_min, time_max.
  change US_PER_DAY with 86400000000.
  pose proof (Z.div_mod x 86400000000 ltac:(lia)) as Hx.
  pose proof (Z.mod_pos_bound x 86400000000 ltac:(lia)) as Hm.
  destruct (Z.leb_spec (d1 * 86400000000 + 0) x),
    (Z.leb_spec x (d2 * 86400000000 + (86400000000 - 1))),
    (Z.leb_spec d1 (x / 86400000000)),
    (Z.leb_spec (x / 86400000000) d2); simpl; try reflexivity; lia.
Qed.

Lemma selected_open_today env r :
  selected (sweep_start env) (sweep_end env) r = open_today env r.
Proof.
  unfold selected, open_today, sweep_start, sweep_end.
  rewrite between_days. apply andb_assoc.
Qed.

Lemma select_active_open_today env t :
  select_active t (sweep_start env) (sweep_end env)
  = List.filter (open_today env) (onsite t).
Proof.
  unfold select_active. apply List.filter_ext. intros r.
  apply (selected_open_today env r).
Qed.

Lemma row_of_iff (m : gmap string nat) (name : string) (row : nat) :
  row_of m name = Some row <-> m !! name = Some row /\ row <> O.
Proof.
  unfold row_of. destruct (m !! name) as [[|n]|].
  - split; [discriminate|]. intros [[= <-] H]. congruence.
  - split; [intros [= <-]; auto | now intros [[= <-] _]].
  - split; [discriminate | now intros [? _]].
Qed.

(** The position of a row among those a filter keeps. *)
Lemma filter_lookup_turn {A} (f : A -> bool) (l : list A) : forall (i : nat) x,
  l !! i = Some x -> f x = true ->
  List.filter f l !! length (List.filter f (take i l)) = Some x.
Proof.
  induction l as [|a l IH]; intros [|i] x; simpl; try discriminate.
  - intros [= ->] ->. reflexivity.
  - intros Hi Hx. destruct (f a); simpl; now apply IH.
Qed.

Lemma filter_lookup_inv {A} (f : A -> bool) (l : list A) : forall (k : nat) u,
  List.filter f l !! k = Some u ->
  exists i : nat, l !! i = Some u /\ f u = true /\
                  length (List.filter f (take i l)) = k.
Proof.
  induction l as [|a l IH]; intros k u; simpl; [discriminate|].
  destruct (f a) eqn:Ha.
  - destruct k as [|k]; simpl.
    + intros [= <-]. exists O. auto.
    + intros Hk. destruct (IH k u Hk) as (i & H1 & H2 & H3).
      exists (S i). simpl. rewrite Ha. simpl. auto.
  - intros Hk. destruct (IH k u Hk) as (i & H1 & H2 & H3).
    exists (S i). simpl. rewrite Ha. auto.
Qed.

Lemma NoDup_map_lookup {A B} (f : A -> B) (l : list A) (i j : nat) x y :
  NoDup (map f l) -> l !! i = Some x -> l !! j = Some y -> f x = f y -> i = j.
Proof.
  intros Hnd Hi Hj Hf.
  apply (NoDup_lookup (map f l) i j (f x)); [exact Hnd | |].
  - change (map f l) with (f <$> l). now rewrite list_lookup_fmap, Hi.
  - change (map f l) with (f <$> l). rewrite list_lookup_fmap, Hj. simpl.
    now rewrite Hf.
Qed.

Section Users.
Variables (env : SweepEnv) (rows : list OnsiteRow).
Hypothesis Hnd : NoDup (map onsite_id rows).

(** The records the sweep's query returns, and where each comes from. *)
Lemma users_lookup (i : nat) r :
  rows !! i = Some r -> open_today env r = true ->
  List.filter (open_today env) rows !! turn env rows i = Some r.
Proof. apply filter_lookup_turn. Qed.

Lemma users_unique (j j' : nat) u u' :
  List.filter (open_today env) rows !! j = Some u ->
  List.filter (open_today env) rows !! j' = Some u' ->
  onsite_id u = onsite_id u' -> j = j'.
Proof.
  intros Hj Hj' Hid.
  apply filter_lookup_inv in Hj as (i & Hi & _ & <-).
  apply filter_lookup_inv in Hj' as (i' & Hi' & _ & <-).
  now rewrite (NoDup_map_lookup onsite_id rows i i' u u' Hnd Hi Hi' Hid).
Qed.

Lemma users_In u :
  In u (List.filter (open_today env) rows) ->
  In u rows /\ open_today env u = true.
Proof. apply filter_In. Qed.

Lemma not_user r u :
  In r rows -> open_today env r = false ->
  In u (List.filter (open_today env) rows) -> onsite_id u <> onsite_id r.
Proof.
  intros Hr Hclosed Hu Hid. apply users_In in Hu as [Hu Hopen].
  assert (u = r) by (eapply NoDup_map_eq; eauto). congruence.
Qed.

End Users.

(** The sweep past the cutoff with something to close and a transaction
    that starts. *)
Lemma sweep_unfold env c w :
  CUTOFF_TIME < dt_time (sweep_now_cutoff env) ->
  (exists r, In r (onsite (working (connection w))) /\
             open_today env r = true) ->
  start_transaction_error env = false ->
  auto_mark_out_all_users env c w =
  match mark_out_loop env c (strftime_HMS (sweep_now_str env))
          (List.filter (open_today env) (onsite (working (connection w))))
          0 [] (emit EvStartTransaction w) with
  | (w1, Escaped e) => raise_exc e w1
  | (w1, Caught) => do_rollback w1
  | (w1, Finished daily_sheet_updates) =>
      if sweep_commit_error env then do_rollback w1
      else
        match daily_sheet_updates with
        | [] => do_commit w1
        | _ :: _ =>
            emit (EvDailyBatch daily_sheet_updates)
              (set_daily_sheet
                 (batch_update daily_sheet_updates
                    (daily_sheet (do_commit w1)))
                 (do_commit w1))
        end
  end.
Proof.
  intros Hcut (r & Hr & Hopen) Hst. unfold auto_mark_out_all_users.
  apply is_after_cutoff_iff in Hcut. rewrite Hcut, Hst.
  fold (sweep_start env) (sweep_end env).
  rewrite select_active_open_today.
  destruct (List.filter _ _) as [|u users] eqn:Hu.
  - exfalso. assert (Hin : In r []) by (rewrite <- Hu; apply filter_In; auto).
    exact Hin.
  - reflexivity.
Qed.

Lemma sweep_nothing_open env c w :
  (forall r, In r (onsite (working (connection w))) ->
             open_today env r = false) ->
  auto_mark_out_all_users env c w = w.
Proof.
  intros Hno. unfold auto_mark_out_all_users.
  destruct (is_after_cutoff _); [|reflexivity].
  fold (sweep_start env) (sweep_end env).
  rewrite select_active_open_today.
  destruct (List.filter _ _) as [|u users] eqn:Hu; [reflexivity|].
  assert (Hin : In u (List.filter (open_today env)
                        (onsite (working (connection w)))))
    by (rewrite Hu; now left).
  apply filter_In in Hin as [Hin Hopen]. rewrite (Hno u Hin) in Hopen.
  discriminate.
Qed.

Lemma sweep_not_after_cutoff env c w :
  dt_time (sweep_now_cutoff env) <= CUTOFF_TIME ->
  auto_mark_out_all_users env c w = w.
Proof.
  intros Hle. unfold auto_mark_out_all_users.
  destruct (is_after_cutoff _) eqn:Ha; [|reflexivity].
  apply is_after_cutoff_iff in Ha. lia.
Qed.

(** The shape of what a sweep appends to the log, with what it did to the
    connection and to the daily sheet. *)
Lemma sweep_trace env c w :
  let w' := auto_mark_out_all_users env c w in
  let evs := new_events w w' in
  month_sheet w' = month_sheet w /\
  last_tap_times w' = last_tap_times w /\
  ((evs = [] /\ w' = w) \/
   (exists ups, Forall (fun e => is_update_event e = true) ups /\
      (evs = [EvError; EvRollback] \/
       evs = EvStartTransaction :: ups ++ [EvError; EvRollback]) /\
      committed (connection w') = committed (connection w) /\
      working (connection w') = committed (connection w) /\
      daily_sheet w' = daily_sheet w /\ raised w' = raised w) \/
   (exists ups, Forall (fun e => is_update_event e = true) ups /\
      evs = EvStartTransaction :: ups /\
      committed (connection w') = committed (connection w) /\
      daily_sheet w' = daily_sheet w /\ raised w' = Some RetryError) \/
   (exists ups, Forall (fun e => is_update_event e = true) ups /\
      start_transaction_error env = false /\
      sweep_commit_error env = false /\
      committed (connection w') = working (connection w') /\
      raised w' = raised w /\
      (evs = EvStartTransaction :: ups ++ [EvCommit] /\
       daily_sheet w' = daily_sheet w \/
       exists us, evs = EvStartTransaction :: ups ++ [EvCommit; EvDailyBatch us]
                  /\ daily_sheet w' = batch_update us (daily_sheet w)))).
Proof.
  cbv zeta. unfold auto_mark_out_all_users.
  assert (Hnil : new_events w w = []).
  { apply new_events_app. now rewrite app_nil_r. }
  destruct (is_after_cutoff _); [|auto].
  destruct (select_active _ _ _) as [|u users]; [auto|].
  destruct (start_transaction_error env) eqn:Hst.
  { split; [reflexivity|]. split; [reflexivity|].
    right. left. exists []. split; [constructor|].
    split; [|now simpl]. left. apply new_events_app.
    unfold do_rollback. simpl. now rewrite <- app_assoc. }
  pose proof (mark_out_loop_frame env c
                (strftime_HMS (sweep_now_str env)) (u :: users) 0 []
                (emit EvStartTransaction w))
    as (Hc & _ & _ & _ & Hm & Hd & Ht & Hr & _ & ups & Hlog & Hups).
  cbv zeta in *.
  destruct (mark_out_loop _ _ _ _ _ _ _) as [w1 [dus| |e]]; simpl in *.
  - destruct (sweep_commit_error env) eqn:Hce.
    + split; [exact Hm|]. split; [exact Ht|].
      right. left. exists ups. split; [exact Hups|].
      split; [|now simpl]. right. apply new_events_app.
      unfold do_rollback. simpl. rewrite Hlog, <- !app_assoc. reflexivity.
    + destruct dus as [|du dus].
      * split; [exact Hm|]. split; [exact Ht|].
        right. right. right. exists ups. split; [exact Hups|].
        repeat split; [exact Hr|]. left. split; [|exact Hd].
        apply new_events_app. simpl. rewrite Hlog, <- !app_assoc. reflexivity.
      * split; [exact Hm|]. split; [exact Ht|].
        right. right. right. exists ups. split; [exact Hups|].
        repeat split; [exact Hr|]. right. exists (du :: dus). split.
        -- apply new_events_app. simpl. rewrite Hlog, <- !app_assoc.
           reflexivity.
        -- simpl. now rewrite Hd.
  - split; [exact Hm|]. split; [exact Ht|].
    right. left. exists ups. split; [exact Hups|].
    split; [|now simpl]. right. apply new_events_app.
    unfold do_rollback. simpl. rewrite Hlog, <- !app_assoc. reflexivity.
  - split; [exact Hm|]. split; [exact Ht|].
    right. right. left. exists ups. split; [exact Hups|].
    split; [|destruct e; auto].
    apply new_events_app. simpl. rewrite Hlog, <- !app_assoc. reflexivity.
Qed.

(* ===================================================================== *)
(** ** The sweep, record by record *)
(* ===================================================================== *)

Lemma update_error_false env k :
  update_error env k = false <->
  mysql_db_call (update_execute env k) = Retry.Value.
Proof.
  unfold update_error, fails.
  destruct (mysql_db_call (update_execute env k)); split; congruence.
Qed.

Section SweepRows.
Variables (env : SweepEnv) (c : Caches) (w : World).
Hypothesis Hnd : NoDup (map onsite_id (onsite (working (connection w)))).

Local Abbreviation t := (working (connection w)).
Local Abbreviation rows := (onsite (working (connection w))).
Local Abbreviation users :=
  (List.filter (open_today env) (onsite (working (connection w)))).
Local Abbreviation now_str := (strftime_HMS (sweep_now_str env)).
Local Abbreviation w0 := (emit EvStartTransaction w).

(** The rows after the first [k] iterations of the loop. *)
Lemma sweep_prefix_rows (k : nat) w1 ups1 :
  mark_out_loop env c now_str (take k users) 0 [] w0 = (w1, Finished ups1) ->
  forall (i : nat) r,
    rows !! i = Some r ->
    (open_today env r = true -> (turn env rows i < k)%nat ->
     onsite (working (connection w1)) !! i
     = Some (if resolves t (tag_id r)
             then mark_out (sweep_now_update env (turn env rows i)) r
             else r)) /\
    (open_today env r = false \/ (k <= turn env rows i)%nat ->
     onsite (working (connection w1)) !! i = Some r).
Proof.
  intros Hloop i r Hi.
  destruct (mark_out_loop_lookup env c now_str _ _ _ _ _ _ Hloop i r Hi)
    as [Ha Hb].
  split.
  - intros Hopen Hlt.
    pose proof (users_lookup env rows i r Hi Hopen) as Hu.
    rewrite (Hb (turn env rows i) r); [reflexivity | | reflexivity |].
    + apply lookup_take_Some. split; [exact Hu | exact Hlt].
    + intros j' u' Hj' Hid. apply lookup_take_Some in Hj' as [Hj' _].
      apply (users_unique env rows Hnd j' (turn env rows i) u' r Hj' Hu Hid).
  - intros Hcase. apply Ha. intros u Hu Hid.
    apply list_elem_of_In, elem_of_take in Hu as (j & Hj & Hjk).
    destruct (open_today env r) eqn:Hopen.
    + destruct Hcase as [Hcase|Hcase]; [discriminate|].
      pose proof (users_lookup env rows i r Hi Hopen) as Hu.
      pose proof (users_unique env rows Hnd j (turn env rows i) u r Hj Hu Hid).
      lia.
    + apply (not_user env rows Hnd r u); auto.
      * eapply lookup_In, Hi.
      * eapply lookup_In, Hj.
Qed.

(** An iteration of the loop that issues an [UPDATE]. *)
Lemma users_updates_at (j : nat) u :
  users !! j = Some u -> resolves t (tag_id u) = true -> updates_at env t j.
Proof.
  intros Hj Hres. apply filter_lookup_inv in Hj as (i & Hi & Hopen & Hturn).
  exists i, u. split; [exact Hi|]. split; [exact Hopen|].
  split; [now apply resolves_iff | exact Hturn].
Qed.

Lemma sweep_prefix_finishes (k : nat) :
  (forall j, (j < k)%nat -> updates_at env t j ->
             mysql_db_call (update_execute env j) = Retry.Value) ->
  exists w1 ups1,
    mark_out_loop env c now_str (take k users) 0 [] w0 = (w1, Finished ups1).
Proof.
  intros Hok. apply mark_out_loop_finishes. intros j u Hj Hres. simpl.
  apply lookup_take_Some in Hj as [Hj Hlt].
  apply Hok; [exact Hlt|]. now apply (users_updates_at j u).
Qed.


End SweepRows.

(* ===================================================================== *)
(** ** The sweep that goes through *)
(* ===================================================================== *)

(** The connection and the sheet after the last step of a sweep that
    commits. *)
Lemma sweep_last_step w1 (dus : list cell_update) :
  let w' := match dus with
            | [] => do_commit w1
            | _ :: _ =>
                emit (EvDailyBatch dus)
                  (set_daily_sheet
                     (batch_update dus (daily_sheet (do_commit w1)))
                     (do_commit w1))
            end in
  connection w' = commit (connection w1) /\
  daily_sheet w' = batch_update dus (daily_sheet w1) /\
  raised w' = raised w1 /\
  month_sheet w' = month_sheet w1 /\
  log w' = log w1 ++ EvCommit ::
             match dus with [] => [] | _ :: _ => [EvDailyBatch dus] end.
Proof.
  destruct dus; cbv zeta; simpl; repeat split.
  now rewrite <- app_assoc.
Qed.

Lemma sweep_after_cutoff env c w :
  NoDup (map onsite_id (onsite (working (connection w)))) ->
  start_transaction_error env = false ->
  (forall k, update_error env k = false) ->
  sweep_commit_error env = false ->
  CUTOFF_TIME < dt_time (sweep_now_cutoff env) ->
  let w' := auto_mark_out_all_users env c w in
  let t := working (connection w) in
  (clean (connection w) \/
   (exists r, In r (onsite t) /\ open_today env r = true) ->
   committed (connection w') = working (connection w')) /\
  raised w' = raised w /\
  length (onsite (working (connection w'))) = length (onsite t) /\
  (forall (i : nat) r,
     onsite t !! i = Some r ->
     (open_today env r = true -> resolvable t (tag_id r) ->
      onsite (working (connection w')) !! i
      = Some {| onsite_id := onsite_id r; tag_id := tag_id r;
                scan_date := scan_date r; Active := 0;
                sign_out_date :=
                  Some (sweep_now_update env (turn env (onsite t) i)) |}) /\
     (open_today env r = false \/ ~ resolvable t (tag_id r) ->
      onsite (working (connection w')) !! i = Some r)) /\
  (forall r name row,
     In r (onsite t) -> open_today env r = true ->
     staff_named t (tag_id r) name -> name <> "" ->
     daily_row c name row ->
     daily_sheet w' !! (row, 3%nat) = Some "OUT" /\
     daily_sheet w' !! (row, 4%nat)
     = Some (strftime_HMS (sweep_now_str env))) /\
  (forall x : cell,
     (forall r name row,
        In r (onsite t) -> open_today env r = true ->
        staff_named t (tag_id r) name -> name <> "" ->
        daily_row c name row ->
        x <> (row, 3%nat) /\ x <> (row, 4%nat)) ->
     daily_sheet w' !! x = daily_sheet w !! x).
Proof.
  intros Hnd Hst Hup Hce Hcut. cbv zeta.
  set (t := working (connection w)).
  assert (Hcase : (forall r, In r (onsite t) -> open_today env r = false) \/
                  (exists r, In r (onsite t) /\ open_today env r = true)).
  { destruct (List.filter (open_today env) (onsite t)) as [|u0 us] eqn:Hu.
    - left. intros r Hr. destruct (open_today env r) eqn:Ho; [|reflexivity].
      exfalso. assert (Hin : In r []) by (rewrite <- Hu; apply filter_In; auto).
      exact Hin.
    - right. exists u0. apply filter_In. rewrite Hu. now left. }
  destruct Hcase as [Hno|Hex].
  { rewrite (sweep_nothing_open env c w Hno).
    split; [|split; [reflexivity|split; [reflexivity|split; [|split]]]].
    - intros [Hc|(r & Hr & Ho)]; [now symmetry|].
      rewrite (Hno r Hr) in Ho. discriminate.
    - intros i r Hi. split; [|auto]. intros Ho.
      rewrite (Hno r (lookup_In _ _ _ Hi)) in Ho. discriminate.
    - intros r name row Hr Ho. rewrite (Hno r Hr) in Ho. discriminate.
    - reflexivity. }
  set (users := List.filter (open_today env) (onsite t)).
  rewrite (sweep_unfold env c w Hcut Hex Hst).
  fold t. fold users.
  destruct (sweep_prefix_finishes env c w (length users)) as (w1 & dus & Hloop).
  { intros j _ _. now apply update_error_false. }
  fold t in Hloop. fold users in Hloop.
  pose proof (sweep_prefix_rows env c w Hnd (length users) w1 dus) as Hrows.
  fold t in Hrows. fold users in Hrows. specialize (Hrows Hloop).
  rewrite firstn_all in Hloop.
  pose proof (mark_out_loop_frame env c (strftime_HMS (sweep_now_str env))
                users 0 [] (emit EvStartTransaction w))
    as (_ & _ & _ & _ & _ & Hd & _ & Hr & Hlen & _).
  pose proof (mark_out_loop_staged env c _ _ _ _ _ _ _ Hloop
                (List.Forall_nil _)) as (Hshape & Hcells).
  pose proof (mark_out_loop_staged_only env c _ _ _ _ _ _ _ Hloop) as Honly.
  cbv zeta in Hd, Hr, Hlen. rewrite Hloop in *. simpl in Hd, Hr, Hlen, Hcells.
  simpl in Honly. rewrite Hce.
  destruct (sweep_last_step w1 dus) as (Hconn & Hsheet & Hraised & _).
  cbv zeta in Hconn, Hsheet, Hraised.
  rewrite Hconn, Hsheet, Hraised. simpl.
  split; [reflexivity|]. split; [exact Hr|]. split; [exact Hlen|].
  split; [|split].
  - intros i r Hi. destruct (Hrows i r Hi) as [Hopen Hkeep]. split.
    + intros Ho Hres. rewrite Hopen; [|exact Ho|].
      * apply resolves_iff in Hres. now rewrite Hres.
      * eapply lookup_lt_Some, users_lookup; eauto.
    + intros [Ho|Hres]; [now apply Hkeep; left|].
      destruct (open_today env r) eqn:Ho; [|now apply Hkeep; left].
      rewrite Hopen; [|reflexivity|].
      * destruct (resolves t (tag_id r)) eqn:Hr'; [|reflexivity].
        apply resolves_iff in Hr'. contradiction.
      * eapply lookup_lt_Some, users_lookup; eauto.
  - intros r name row Hr0 Ho Hname Hne Hrow.
    destruct (Hcells r name row) as [H3 H4].
    { apply filter_In. auto. }
    { now apply select_staff_name_named. }
    { now apply truthy_iff. }
    { now apply row_of_iff. }
    rewrite Hd. split.
    + apply batch_update_agree; [exact H3|].
      intros x Hx Hfst. rewrite List.Forall_forall in Hshape.
      destruct (Hshape x Hx) as [row' [-> | ->]]; [reflexivity|].
      simpl in Hfst. congruence.
    + apply batch_update_agree; [exact H4|].
      intros x Hx Hfst. rewrite List.Forall_forall in Hshape.
      destruct (Hshape x Hx) as [row' [-> | ->]]; [|reflexivity].
      simpl in Hfst. congruence.
  - intros x Hx. rewrite Hd. apply batch_update_other.
    intros Hin. apply in_map_iff in Hin as (y & <- & Hy).
    destruct (Honly y Hy) as [[]|(u & name & row & Hu & Hn & Htr & Hrow & Hy')].
    apply filter_In in Hu as [Hu Ho].
    destruct (Hx u name row Hu Ho) as [Hx3 Hx4].
    { now apply select_staff_name_named. }
    { now apply truthy_iff. }
    { now apply row_of_iff. }
    destruct Hy' as [-> | ->]; simpl in *; congruence.
Qed.

(** ** C7 *)

(** C7, as the code has it.  Past [CUTOFF_TIME], when no database call of
    the sweep fails, the sweep closes every record that is active and
    scanned today and whose tag has a [Staff] row with a name that is not
    empty: the record keeps its place, id, tag and scan time, [Active]
    becomes 0 and [sign_out_date] the clock reading of the loop iteration
    that handles the record; every other record is left as it was; all
    of it is committed.  The daily sheet gets OUT and the sweep's time
    string in the row of each such staff member that the daily cache
    knows, and is unchanged elsewhere.  At or before [CUTOFF_TIME] the
    sweep changes nothing. *)
Theorem sweep_closes_resolving_records env c w :
  clean (connection w) ->
  NoDup (map onsite_id (onsite (committed (connection w)))) ->
  start_transaction_error env = false ->
  (forall k, update_error env k = false) ->
  sweep_commit_error env = false ->
  let w' := auto_mark_out_all_users env c w in
  let t := committed (connection w) in
  (CUTOFF_TIME < dt_time (sweep_now_cutoff env) ->
   clean (connection w') /\
   raised w' = raised w /\
   length (onsite (committed (connection w'))) = length (onsite t) /\
   (forall (i : nat) r,
      onsite t !! i = Some r ->
      (open_today env r = true -> resolvable t (tag_id r) ->
       onsite (committed (connection w')) !! i
       = Some {| onsite_id := onsite_id r; tag_id := tag_id r;
                 scan_date := scan_date r; Active := 0;
                 sign_out_date :=
                   Some (sweep_now_update env (turn env (onsite t) i)) |}) /\
      (open_today env r = false \/ ~ resolvable t (tag_id r) ->
       onsite (committed (connection w')) !! i = Some r)) /\
   (forall r name row,
      In r (onsite t) -> open_today env r = true ->
      staff_named t (tag_id r) name -> name <> "" ->
      daily_row c name row ->
      daily_sheet w' !! (row, 3%nat) = Some "OUT" /\
      daily_sheet w' !! (row, 4%nat)
      = Some (strftime_HMS (sweep_now_str env))) /\
   (forall x : cell,
      (forall r name row,
         In r (onsite t) -> open_today env r = true ->
         staff_named t (tag_id r) name -> name <> "" ->
         daily_row c name row ->
         x <> (row, 3%nat) /\ x <> (row, 4%nat)) ->
      daily_sheet w' !! x = daily_sheet w !! x))
  /\
  (dt_time (sweep_now_cutoff env) <= CUTOFF_TIME -> w' = w).
Proof.
  intros Hclean Hnd Hst Hup Hce. cbv zeta.
  split; [|apply sweep_not_after_cutoff].
  intros Hcut. pose proof Hclean as Hcl. unfold clean in Hcl.
  rewrite <- Hcl in Hnd |- *.
  destruct (sweep_after_cutoff env c w Hnd Hst Hup Hce Hcut)
    as (Hc & Hr & Hlen & Hrows & Hcells & Hframe).
  cbv zeta in *. specialize (Hc (or_introl Hclean)).
  unfold clean. rewrite Hc.
  split; [reflexivity|]. split; [exact Hr|]. split; [exact Hlen|].
  split; [exact Hrows|]. split; [exact Hcells | exact Hframe].
Qed.

(* ===================================================================== *)
(** ** The sweep that fails *)
(* ===================================================================== *)







(** ** C8 *)


(* ===================================================================== *)
(** ** The latest record of the day *)
(* ===================================================================== *)

Lemma latest_rows_In rows r :
  In r (latest_rows rows) <->
  In r rows /\ forall r', In r' rows -> scan_date r' <= scan_date r.
Proof.
  unfold latest_rows. rewrite filter_In, forallb_forall.
  split; intros [Hin Hmax]; (split; [exact Hin|]); intros r' Hr'.
  - apply Z.leb_le. now apply Hmax.
  - apply Z.leb_le. now apply Hmax.
Qed.

(** A list that is not empty has a latest row. *)
Lemma latest_rows_nonempty rows :
  rows <> [] -> latest_rows rows <> [].
Proof.
  intros Hne.
  assert (Hmax : exists r,
            In r rows /\
            forall r', In r' rows -> scan_date r' <= scan_date r).
  { clear -Hne. induction rows as [|a rows IH]; [congruence|].
    destruct rows as [|b rows].
    - exists a. split; [now left|]. intros r' [<-|[]]. lia.
    - destruct IH as (m & Hm & Hmax); [discriminate|].
      destruct (Z.le_gt_cases (scan_date a) (scan_date m)).
      + exists m. split; [now right|]. intros r' [<-|Hr']; auto.
      + exists a. split; [now left|]. intros r' [<-|Hr']; [lia|].
        specialize (Hmax r' Hr'). lia. }
  destruct Hmax as (m & Hm). apply latest_rows_In in Hm.
  intros Hnil. rewrite Hnil in Hm. exact Hm.
Qed.

Lemma latest_Some pick rows r :
  latest pick rows = Some r ->
  In r rows /\ forall r', In r' rows -> scan_date r' <= scan_date r.
Proof.
  unfold latest. intros H. apply latest_rows_In. eapply lookup_In, H.
Qed.

Lemma latest_None pick rows : latest pick rows = None -> rows = [].
Proof.
  unfold latest. intros H. destruct rows as [|a rows]; [reflexivity|].
  exfalso. apply lookup_ge_None in H.
  pose proof (latest_rows_nonempty (a :: rows) ltac:(discriminate)) as Hne.
  destruct (latest_rows (a :: rows)) as [|b top]; [congruence|].
  pose proof (Nat.mod_upper_bound pick (length (b :: top))
                ltac:(discriminate)).
  lia.
Qed.

(** Today's window of a scan holds the records scanned on the scan's
    date. *)
Lemma todays_rows_In tag now rows r :
  In r (todays_rows tag (today_start now) (today_end now) rows) <->
  In r rows /\ of_day tag (dt_date now) r.
Proof.
  unfold todays_rows, today_start, today_end, of_day.
  rewrite filter_In, andb_true_iff, between_days, andb_true_iff.
  rewrite String.eqb_eq, !Z.leb_le. intuition lia.
Qed.

(** What the status query tells the scan. *)
Lemma status_today_open pick now tag c id :
  currently_in (status_today pick now tag c) = Some id ->
  exists r, most_recent tag (dt_date now) (onsite (working c)) r /\
            Active r = 1 /\ onsite_id r = id.
Proof.
  unfold status_today, get_current_onsite_status, currently_in.
  destruct (latest pick _) as [r|] eqn:Hl; simpl; [|discriminate].
  destruct (Z.eqb_spec (Active r) 1) as [Ha|Ha]; [|discriminate].
  intros [= <-]. exists r. split; [|auto].
  apply latest_Some in Hl as [Hin Hmax].
  apply todays_rows_In in Hin as [Hin Hday].
  split; [exact Hin|]. split; [exact Hday|].
  intros r' Hr' Hd'. apply Hmax. now apply todays_rows_In.
Qed.

Lemma status_today_closed pick now tag c :
  currently_in (status_today pick now tag c) = None ->
  (forall r, In r (onsite (working c)) -> ~ of_day tag (dt_date now) r) \/
  exists r, most_recent tag (dt_date now) (onsite (working c)) r /\
            Active r <> 1.
Proof.
  unfold status_today, get_current_onsite_status, currently_in.
  destruct (latest pick _) as [r|] eqn:Hl; simpl.
  - destruct (Z.eqb_spec (Active r) 1) as [Ha|Ha]; [discriminate|].
    intros _. right. exists r. split; [|exact Ha].
    apply latest_Some in Hl as [Hin Hmax].
    apply todays_rows_In in Hin as [Hin Hday].
    split; [exact Hin|]. split; [exact Hday|].
    intros r' Hr' Hd'. apply Hmax. now apply todays_rows_In.
  - intros _. left. intros r Hr Hd. apply latest_None in Hl.
    assert (Hin : In r (todays_rows tag (today_start now) (today_end now)
                          (onsite (working c))))
      by now apply todays_rows_In.
    rewrite Hl in Hin. exact Hin.
Qed.

(** The [UPDATE] of one record in a table with distinct ids. *)
Lemma update_onsite_out_other id now rows :
  (forall r, In r rows -> onsite_id r <> id) ->
  update_onsite_out id now rows = rows.
Proof.
  intros H. unfold update_onsite_out.
  rewrite <- (map_id rows) at 2. apply map_ext_in.
  intros r Hr. destruct (Z.eqb_spec (onsite_id r) id); [|reflexivity].
  exfalso. now apply (H r).
Qed.

Lemma update_onsite_out_split now rows r :
  NoDup (map onsite_id rows) -> In r rows ->
  exists pre post,
    rows = pre ++ r :: post /\
    update_onsite_out (onsite_id r) now rows
    = pre ++ {| onsite_id := onsite_id r; tag_id := tag_id r;
                scan_date := scan_date r; Active := 0;
                sign_out_date := Some now |} :: post.
Proof.
  intros Hnd Hin. apply in_split in Hin as (pre & post & ->).
  exists pre, post. split; [reflexivity|].
  assert (Hother : forall x, In x pre \/ In x post ->
                             onsite_id x <> onsite_id r).
  { intros x Hx Heq.
    assert (Hxr : x = r).
    { apply (NoDup_map_eq onsite_id (pre ++ r :: post)); auto.
      - apply in_or_app. destruct Hx; [now left | right; now right].
      - apply in_or_app. right. now left. }
    subst x. rewrite map_app in Hnd. simpl in Hnd.
    apply NoDup_app in Hnd as (_ & Hdis & Hpost).
    apply NoDup_cons in Hpost as [Hnot _].
    destruct Hx as [Hx|Hx].
    - apply (Hdis (onsite_id r)).
      + apply list_elem_of_In, in_map, Hx.
      + left.
    - apply Hnot. apply list_elem_of_In, in_map, Hx. }
  unfold update_onsite_out at 1. rewrite map_app. simpl.
  rewrite Z.eqb_refl. f_equal; [|f_equal].
  - apply (update_onsite_out_other (onsite_id r) now pre).
    intros x Hx. apply Hother. now left.
  - apply (update_onsite_out_other (onsite_id r) now post).
    intros x Hx. apply Hother. now right.
Qed.

(* ===================================================================== *)
(** ** What a scan does, case by case *)
(* ===================================================================== *)

Lemma status_today_onsite pick now tag c c' :
  onsite (working c) = onsite (working c') ->
  status_today pick now tag c = status_today pick now tag c'.
Proof. unfold status_today, get_current_onsite_status. now intros ->. Qed.

Lemma project_month env c name status monthly w :
  month_sheet (project env c name status monthly w) =
  if monthly =? 1 then
    match row_of (staff_name_to_month_row_index c) name with
    | Some row =>
        <[(row, today_col_index c) :=
            if LATE_SIGNIN_TIME <? dt_time (scan_now env)
            then "Present(LATE)" else "Present"]> (month_sheet w)
    | None => month_sheet w
    end
  else month_sheet w.
Proof.
  unfold project, update_daily_sheet_row, update_monthly_sheet_status.
  repeat case_match; simpl; try reflexivity; try discriminate.
Qed.

(** The events of the two sheet updates: a monthly batch only for a
    sign-in of a name the monthly cache knows. *)
Lemma project_log env c name status monthly w :
  exists evs,
    log (project env c name status monthly w) = log w ++ evs /\
    (monthly = 0 -> Forall (fun e => is_monthly_event e = false) evs).
Proof.
  unfold project, update_daily_sheet_row, update_monthly_sheet_status.
  destruct (row_of (staff_name_to_month_row_index c) name) as [mrow|];
    destruct (monthly =? 1) eqn:H1; destruct (monthly =? 0) eqn:H0;
    destruct (row_of (staff_name_to_daily_row_index c) name) as [drow|];
    simpl; rewrite <- ?app_assoc; simpl;
    (eexists; split; [try reflexivity; symmetry; apply app_nil_r |]);
    intros Hm; subst; try discriminate; repeat constructor.
Qed.

Lemma gates_pass_status env tag w name :
  gates_pass env tag w = Some name ->
  status_today (latest_pick env) (scan_now env) tag
    (connection (after_gates env tag name w))
  = status_today (latest_pick env) (scan_now env) tag (connection w).
Proof.
  intros Hg. apply status_today_onsite.
  pose proof (after_gates_frame env tag name w) as (Hc & _). cbv zeta in Hc.
  rewrite Hc. apply resolver_working_onsite.
  apply gates_pass_window in Hg as (_ & _ & Hr).
  unfold resolved_name in Hr.
  destruct (fst (get_assigned_name_and_tag env tag w)); [eauto|discriminate].
Qed.

Lemma scan_result env c tag w :
  fst (on_tag_scan env c tag w) =
  match gates_pass env tag w with
  | Some _ => negb (ledger_write_fails env)
  | None => false
  end.
Proof.
  destruct (gates_pass env tag w) as [name|] eqn:Hg.
  - rewrite (on_tag_scan_passed _ _ _ _ _ Hg). cbv zeta.
    destruct (currently_in _) as [id|].
    + rewrite update_onsite_ok. now destruct (ledger_write_fails env).
    + rewrite add_onsite_ok. now destruct (ledger_write_fails env).
  - now rewrite (on_tag_scan_rejected _ _ _ _ Hg).
Qed.

(** The world after an accepted scan. *)
Lemma scan_accepted env c tag w :
  clean (connection w) ->
  fst (on_tag_scan env c tag w) = true ->
  let w' := snd (on_tag_scan env c tag w) in
  let rows := onsite (working (connection w)) in
  exists name,
    gates_pass env tag w = Some name /\
    clean (connection w') /\ raised w' = raised w /\
    match currently_in (status_today (latest_pick env) (scan_now env) tag
                          (connection w)) with
    | Some id =>
        onsite (working (connection w'))
        = update_onsite_out id (scan_now env) rows /\
        next_onsite_id (connection w') = next_onsite_id (connection w) /\
        month_sheet w' = month_sheet w /\
        Forall (fun e => is_monthly_event e = false) (new_events w w')
    | None =>
        onsite (working (connection w')) =
          rows ++ [mkOnsite (next_onsite_id (connection w)) tag (scan_now env)
                     1 None] /\
        next_onsite_id (connection w') = next_onsite_id (connection w) + 1 /\
        month_sheet w' =
          match row_of (staff_name_to_month_row_index c) name with
          | Some row =>
              <[(row, today_col_index c) :=
                  if LATE_SIGNIN_TIME <? dt_time (scan_now env)
                  then "Present(LATE)" else "Present"]> (month_sheet w)
          | None => month_sheet w
          end
    end.
Proof.
  intros Hclean Hok. cbv zeta.
  rewrite scan_result in Hok.
  destruct (gates_pass env tag w) as [name|] eqn:Hg; [|discriminate].
  exists name. split; [reflexivity|].
  apply negb_true_iff in Hok.
  rewrite (on_tag_scan_passed _ _ _ _ _ Hg). cbv zeta.
  rewrite (gates_pass_status _ _ _ _ Hg).
  pose proof (after_gates_frame env tag name w)
    as (Hc2 & Hm2 & _ & _ & Hl2 & Hr2). cbv zeta in Hc2, Hm2, Hl2, Hr2.
  pose proof (resolver_clean env tag w Hclean) as (_ & _ & How & _).
  pose proof (resolver_frame env tag w) as (_ & _ & _ & Hn).
  pose proof (resolver_log env tag w) as (evs1 & Hlog1 & Hevs1).
  assert (Hraised : raised (snd (get_assigned_name_and_tag env tag w))
                    = raised w).
  { apply resolver_raised. left.
    apply gates_pass_window in Hg as (_ & _ & Hr).
    unfold resolved_name in Hr.
    destruct (fst (get_assigned_name_and_tag env tag w));
      [eauto|discriminate]. }
  destruct (currently_in _) as [id|].
  - rewrite update_onsite_ok, Hok. simpl.
    pose proof (update_onsite_done env (scan_now env)
                  (after_gates env tag name w) id Hok)
      as (Hc & Hm & _ & _ & Hr & Hl).
    cbv zeta in Hc, Hm, Hr, Hl.
    pose proof (project_frame env c name "OUT" 0
                  (snd (update_onsite_record_in_db env id (scan_now env)
                          (after_gates env tag name w)))) as (Hp & _ & Hpr).
    pose proof (project_log env c name "OUT" 0
                  (snd (update_onsite_record_in_db env id (scan_now env)
                          (after_gates env tag name w))))
      as (evs3 & Hl3 & Hevs3).
    rewrite Hp, Hpr, Hc, Hc2, Hr, Hr2, Hraised. simpl. rewrite How, Hn.
    split; [reflexivity|]. split; [reflexivity|]. split; [reflexivity|].
    split; [reflexivity|]. split.
    + rewrite project_month. simpl. congruence.
    + rewrite (new_events_app w _
                 (evs1 ++ [EvUpdateOnsite id (scan_now env); EvCommit]
                       ++ evs3)).
      * apply Forall_app. split.
        -- eapply Forall_impl; [exact Hevs1|].
           intros [] He; simpl in *; congruence.
        -- apply Forall_app. split; [repeat constructor | now apply Hevs3].
      * rewrite Hl3, Hl, Hl2, Hlog1, <- !app_assoc. reflexivity.
  - rewrite add_onsite_ok, Hok. simpl.
    pose proof (add_onsite_done env (scan_now env)
                  (after_gates env tag name w) tag Hok)
      as (Hc & Hm & _ & _ & Hr & Hl).
    cbv zeta in Hc, Hm, Hr, Hl.
    pose proof (project_frame env c name "IN" 1
                  (snd (add_onsite_record_to_db env tag (scan_now env)
                          (after_gates env tag name w)))) as (Hp & _ & Hpr).
    rewrite Hp, Hpr, Hc, Hc2, Hr, Hr2, Hraised. simpl. rewrite How, Hn.
    split; [reflexivity|]. split; [reflexivity|]. split; [reflexivity|].
    split; [reflexivity|].
    rewrite project_month. simpl. rewrite Hm, Hm2. reflexivity.
Qed.

(** A scan that is not accepted: nothing is committed to [onsite], the
    monthly sheet is as it was and no monthly call is made; the id counter
    does not go back. *)
Lemma scan_not_accepted env c tag w :
  clean (connection w) ->
  fst (on_tag_scan env c tag w) = false ->
  let w' := snd (on_tag_scan env c tag w) in
  clean (connection w') /\
  onsite (committed (connection w')) = onsite (committed (connection w)) /\
  month_sheet w' = month_sheet w /\
  Forall (fun e => is_monthly_event e = false) (new_events w w').
Proof.
  intros Hclean Hno. cbv zeta.
  rewrite scan_result in Hno.
  assert (Hfail : gates_pass env tag w = None \/ ledger_write_fails env = true).
  { destruct (gates_pass env tag w); [right|now left].
    now apply negb_false_iff in Hno. }
  destruct (scan_failure_frame env c tag w Hclean Hfail)
    as (_ & Hc & _ & Hcl & Hm & _ & Hevs).
  cbv zeta in *. repeat split; auto.
  eapply Forall_impl; [exact Hevs|].
  intros [] He; simpl in *; congruence.
Qed.


(* ===================================================================== *)
(** ** The accepted scan, in terms of the committed ledger *)
(* ===================================================================== *)

Lemma accepted_scan_effect env c tag w :
  clean (connection w) ->
  NoDup (map onsite_id (onsite (committed (connection w)))) ->
  fst (on_tag_scan env c tag w) = true ->
  let w' := snd (on_tag_scan env c tag w) in
  let before := onsite (committed (connection w)) in
  let after := onsite (committed (connection w')) in
  let now := scan_now env in
  exists name,
    admitted env tag w name /\
    clean (connection w') /\ raised w' = raised w /\
    ((signs_out tag (dt_date now) now before after /\
      next_onsite_id (connection w') = next_onsite_id (connection w) /\
      month_sheet w' = month_sheet w /\
      Forall (fun e => is_monthly_event e = false) (new_events w w')) \/
     (after = before ++ [mkOnsite (next_onsite_id (connection w)) tag now 1
                           None] /\
      ((forall r, In r before -> ~ of_day tag (dt_date now) r) \/
       exists r, most_recent tag (dt_date now) before r /\ Active r <> 1) /\
      next_onsite_id (connection w') = next_onsite_id (connection w) + 1 /\
      month_sheet w' =
        match row_of (staff_name_to_month_row_index c) name with
        | Some row =>
            <[(row, today_col_index c) :=
                if LATE_SIGNIN_TIME <? dt_time now
                then "Present(LATE)" else "Present"]> (month_sheet w)
        | None => month_sheet w
        end)).
Proof.
  intros Hclean Hnd Hok. cbv zeta.
  destruct (scan_accepted env c tag w Hclean Hok)
    as (name & Hg & Hcl & Hr & Hcase).
  cbv zeta in Hcase. exists name.
  split; [now apply gates_pass_admitted|]. split; [exact Hcl|].
  split; [exact Hr|].
  unfold clean in Hclean, Hcl. rewrite <- Hcl, <- Hclean in *.
  destruct (currently_in _) as [id|] eqn:Hst.
  - left. destruct Hcase as (Hrows & Hn & Hm & Hev).
    split; [|auto].
    apply status_today_open in Hst as (r & Hrec & Ha & <-).
    destruct (update_onsite_out_split (scan_now env) _ r Hnd (proj1 Hrec))
      as (pre & post & Hsplit & Hupd).
    exists pre, r, post. rewrite Hrows, Hupd. auto.
  - right. destruct Hcase as (Hrows & Hn & Hm).
    split; [exact Hrows|]. split; [|auto].
    now apply status_today_closed in Hst.
Qed.

(* ===================================================================== *)
(** ** The monthly sheet *)
(* ===================================================================== *)

Lemma is_present_insert (m : gmap cell string) (x y : cell) (v : string) :
  v = "Present" \/ v = "Present(LATE)" ->
  is_present (m !! y) -> is_present (<[x := v]> m !! y).
Proof.
  intros Hv Hy. destruct (decide (x = y)) as [->|Hne].
  - rewrite lookup_insert_eq. unfold is_present. destruct Hv; subst; auto.
  - now rewrite lookup_insert_ne.
Qed.

Lemma sweep_no_monthly_event env c w :
  Forall (fun e => is_monthly_event e = false)
    (new_events w (auto_mark_out_all_users env c w)).
Proof.
  assert (Hups : forall ups, Forall (fun e => is_update_event e = true) ups ->
                 Forall (fun e => is_monthly_event e = false) ups).
  { intros ups H. eapply Forall_impl; [exact H|]. now intros []. }
  pose proof (sweep_trace env c w) as (_ & _ & H). cbv zeta in H.
  destruct H
    as [[-> _]|[(ups & Hu & [-> | ->] & _)|[(ups & Hu & -> & _)|
        (ups & Hu & _ & _ & _ & _ & H)]]].
  - constructor.
  - repeat constructor.
  - constructor; [reflexivity|]. apply Forall_app. split; [auto|].
    repeat constructor.
  - constructor; [reflexivity | auto].
  - destruct H as [[-> _]|(us & -> & _)].
    + constructor; [reflexivity|]. apply Forall_app. split; [auto|].
      repeat constructor.
    + constructor; [reflexivity|]. apply Forall_app. split; [auto|].
      repeat constructor.
Qed.

(** How a scan leaves the monthly sheet. *)
Lemma scan_month env c tag w :
  clean (connection w) ->
  month_sheet (snd (on_tag_scan env c tag w)) = month_sheet w \/
  exists row v,
    (v = "Present" \/ v = "Present(LATE)") /\
    month_sheet (snd (on_tag_scan env c tag w)) = <[row := v]> (month_sheet w).
Proof.
  intros Hclean.
  destruct (fst (on_tag_scan env c tag w)) eqn:Hok.
  - destruct (scan_accepted env c tag w Hclean Hok)
      as (name & _ & _ & _ & Hcase).
    cbv zeta in Hcase.
    destruct (currently_in _); [left; tauto|].
    destruct Hcase as (_ & _ & Hm). rewrite Hm.
    destruct (row_of _ name) as [row|]; [|now left].
    right. eexists _, _. split; [|reflexivity].
    destruct (LATE_SIGNIN_TIME <? _); auto.
  - left. now apply scan_not_accepted.
Qed.

(** ** C3 *)

(** C3.  A scan that [on_tag_scan] accepts is a sign-in, which appends a
    new active record of the tag, or a sign-out, which closes the tag's
    open record.  The sign-in writes the cell of the staff member's row in
    today's column: Present(LATE) when the scan's time of day is strictly
    after [LATE_SIGNIN_TIME], Present otherwise (when the monthly cache
    has no row for the name, nothing is written).  The sign-out leaves the
    monthly sheet as it was and makes no monthly call, and so do a scan
    that is not accepted and the sweep.  So a cell that holds a Present
    value still holds one after any scan and any sweep. *)
Theorem monthly_cell_written_only_on_sign_in env senv c tag w :
  clean (connection w) ->
  NoDup (map onsite_id (onsite (committed (connection w)))) ->
  let r := on_tag_scan env c tag w in
  let swept := auto_mark_out_all_users senv c w in
  let before := onsite (committed (connection w)) in
  let after := onsite (committed (connection (snd r))) in
  let now := scan_now env in
  let status :=
    if LATE_SIGNIN_TIME <? dt_time now then "Present(LATE)" else "Present" in
  (fst r = true ->
   exists name,
     assigned (committed (connection w)) tag name /\
     ((signs_in tag now before after /\
       (forall row, month_row c name row ->
          month_sheet (snd r)
          = <[(row, today_col_index c) := status]> (month_sheet w)) /\
       ((forall row, ~ month_row c name row) ->
        month_sheet (snd r) = month_sheet w)) \/
      (signs_out tag (dt_date now) now before after /\
       month_sheet (snd r) = month_sheet w /\
       Forall (fun e => is_monthly_event e = false)
         (new_events w (snd r))))) /\
  (fst r = false ->
   month_sheet (snd r) = month_sheet w /\
   Forall (fun e => is_monthly_event e = false) (new_events w (snd r))) /\
  (month_sheet swept = month_sheet w /\
   Forall (fun e => is_monthly_event e = false) (new_events w swept)) /\
  (forall x : cell,
     is_present (month_sheet w !! x) ->
     is_present (month_sheet (snd r) !! x) /\
     is_present (month_sheet swept !! x)).
Proof.
  intros Hclean Hnd. cbv zeta.
  pose proof (sweep_trace senv c w) as (Hs & _). cbv zeta in Hs.
  split; [|split; [|split; [split|]]].
  - intros Hok.
    destruct (accepted_scan_effect env c tag w Hclean Hnd Hok)
      as (name & Hadm & _ & _ & Hcase).
    cbv zeta in Hcase. exists name. split.
    { destruct Hadm as (Ha & _). unfold clean in Hclean.
      now rewrite <- Hclean. }
    destruct Hcase as [(Hout & _ & Hm & Hev) | (Hin & _ & _ & Hm)].
    + right. auto.
    + left. split; [eexists; exact Hin|]. split.
      * intros row Hrow. apply row_of_iff in Hrow. now rewrite Hrow in Hm.
      * intros Hno. destruct (row_of _ name) as [row|] eqn:Hrow; [|exact Hm].
        apply row_of_iff in Hrow. now destruct (Hno row).
  - intros Hno. now apply scan_not_accepted.
  - exact Hs.
  - apply sweep_no_monthly_event.
  - intros x Hx. split; [|now rewrite Hs].
    destruct (scan_month env c tag w Hclean) as [-> | (row & v & Hv & ->)];
      [exact Hx|].
    now apply is_present_insert.
Qed.

(* ===================================================================== *)
(** ** The ledger between the scans of a tag *)
(* ===================================================================== *)



Lemma ledger_inv_later tag day bound bound' c :
  bound <= bound' -> ledger_inv tag day bound c -> ledger_inv tag day bound' c.
Proof.
  intros Hle (H1 & H2 & H3 & H4 & H5). repeat split; auto.
  intros r Hr Hd. specialize (H4 r Hr Hd). lia.
Qed.



Section Step.
Variables (env : ScanEnv) (c : Caches) (tag : string) (day : date)
          (bound : datetime) (w : World).
Hypothesis Hinv : ledger_inv tag day bound (connection w).
Hypothesis Hlater : bound < scan_now env.
Hypothesis Hday : dt_date (scan_now env) = day.



End Step.


(** ** C1 *)


(* ===================================================================== *)
(** ** The scan that fails *)
(* ===================================================================== *)







(** ** C2 *)


(* ===================================================================== *)
(** ** Exit status *)
(* ===================================================================== *)

Lemma try_finally_exit_code body :
  Script.exit_code (Script.try_except_finally body Script.finally_clause) = 0.
Proof. reflexivity. Qed.

(** The exit status of a run: 1 when the module-level setup gives up
    (configuration, lock directory, Google authentication) or no tag is
    given, 0 for everything that reaches the [try] statement. *)
Lemma main_exit_code inv w :
  fst (Script.main inv w) =
  match Script.module_setup inv with
  | Script.Raise _ => 1
  | Script.Normal _ => if truthy (Script.read_tag inv) then 0 else 1
  end.
Proof.
  unfold Script.main.
  destruct (Script.module_setup inv) as [[]|e] eqn:Hs.
  - destruct (truthy (Script.read_tag inv)); simpl; [|reflexivity].
    destruct (Script.try_body _ _ _) as [body w']. reflexivity.
  - unfold Script.module_setup in Hs.
    repeat case_match; try discriminate; injection Hs as <-; reflexivity.
Qed.

(** ** C9 *)

(** C9 asks for exit status 1 on lock-acquisition failure, on
    database-connection failure and when today's column is missing from
    the monthly sheet.  In each of the three runs the [try] body does end
    with [sys.exit(1)], and the run exits with status 0: the [sys.exit(0)]
    that closes the [finally] clause replaces the pending [SystemExit]. *)
Theorem exit_status_one_is_lost_in_finally :
  let locked := Sample.invocation "T1" false true Sample.headers in
  let no_db := Sample.invocation "T1" true false Sample.headers in
  let no_column := Sample.invocation "T1" true true ["Name"; "2024-04-23"] in
  (fst (Script.try_body locked "T1" Sample.world)
   = Script.Raise (Script.SystemExit 1) /\
   fst (Script.main locked Sample.world) = 0) /\
  (fst (Script.try_body no_db "T1" Sample.world)
   = Script.Raise (Script.SystemExit 1) /\
   fst (Script.main no_db Sample.world) = 0) /\
  (fst (Script.try_body no_column "T1" Sample.world)
   = Script.Raise (Script.SystemExit 1) /\
   fst (Script.main no_column Sample.world) = 0).
Proof. vm_compute. repeat split; reflexivity. Qed.

(** The part of C9 the code does keep: status 0 for a run that completes,
    whether the scan is accepted or rejected, and for the exit command in
    any letter case; status 1 when a configuration variable is missing. *)
Lemma exit_status_kept inv w :
  (Script.module_setup inv = Script.Normal tt ->
   truthy (Script.read_tag inv) = true ->
   fst (Script.main inv w) = 0) /\
  (Script.env_set (Script.DB_HOST inv) = false \/
   Script.env_set (Script.DB_NAME inv) = false \/
   Script.env_set (Script.DB_USER inv) = false \/
   Script.env_set (Script.DB_PASSWORD inv) = false \/
   Script.env_set (Script.SHEET_ID inv) = false ->
   fst (Script.main inv w) = 1).
Proof.
  rewrite main_exit_code. split.
  - now intros -> ->.
  - intros H. unfold Script.module_setup. simpl.
    destruct H as [-> | [-> | [-> | [-> | ->]]]];
      rewrite ?andb_false_r; reflexivity.
Qed.

Example exit_command_any_case :
  fst (Script.main (Sample.invocation " ExIt " true true Sample.headers)
         Sample.world) = 0 /\
  snd (Script.main (Sample.invocation " ExIt " true true Sample.headers)
         Sample.world) = Sample.world.
Proof. vm_compute. split; reflexivity. Qed.

(* ===================================================================== *)
(** ** The statements at sample inputs *)
(* ===================================================================== *)




Lemma monthly_cell_written_only_on_sign_in_witness :
  let r := on_tag_scan (Sample.scan_at 9 0) Sample.caches "T1" Sample.world in
  exists name,
    assigned (committed (connection Sample.world)) "T1" name /\
    ((signs_in "T1" (Sample.at_time 9 0)
        (onsite (committed (connection Sample.world)))
        (onsite (committed (connection (snd r)))) /\
      (forall row, month_row Sample.caches name row ->
         month_sheet (snd r)
         = <[(row, 4%nat) := "Present(LATE)"]> (month_sheet Sample.world)) /\
      ((forall row, ~ month_row Sample.caches name row) ->
       month_sheet (snd r) = month_sheet Sample.world)) \/
     (signs_out "T1" Sample.day (Sample.at_time 9 0)
        (onsite (committed (connection Sample.world)))
        (onsite (committed (connection (snd r)))) /\
      month_sheet (snd r) = month_sheet Sample.world /\
      Forall (fun e => is_monthly_event e = false)
        (new_events Sample.world (snd r)))).
Proof.
  destruct (monthly_cell_written_only_on_sign_in (Sample.scan_at 9 0)
              (Sample.sweep_at 17 0 false) Sample.caches "T1" Sample.world)
    as (H & _).
  - reflexivity.
  - constructor.
  - apply H. vm_compute. reflexivity.
Defined.

Lemma time_window_gate_witness :
  fst (on_tag_scan (Sample.scan_at 17 0) Sample.caches "T1" Sample.world)
  = false.
Proof.
  apply (time_window_gate (Sample.scan_at 17 0) Sample.caches "T1"
           Sample.world).
  - reflexivity.
  - intros [_ H]. vm_compute in H. apply H. reflexivity.
Defined.

Lemma assignment_row_survives_rejection_witness :
  sign (committed (connection
          (snd (on_tag_scan (Sample.scan_at 17 0) Sample.caches "T1"
                  Sample.world))))
  = sign (committed (connection Sample.world)) ++ [mkSign "T1" "Alice"].
Proof.
  apply (assignment_row_survives_rejection (Sample.scan_at 17 0)
           Sample.caches "T1" Sample.world "Alice"); reflexivity.
Defined.

Lemma alice_resolvable t rest :
  Staff t = mkStaff "T1" "Alice" "Ops" :: rest -> resolvable t "T1".
Proof.
  intros Hs. exists "Alice". split; [|discriminate].
  exists (mkStaff "T1" "Alice" "Ops"). rewrite Hs.
  split; [now constructor | reflexivity].
Qed.

Lemma sweep_closes_resolving_records_witness :
  let w' := auto_mark_out_all_users (Sample.sweep_at 17 0 false)
              Sample.caches Sample.open_world in
  clean (connection w') /\
  onsite (committed (connection w')) !! 0%nat
  = Some {| onsite_id := 1; tag_id := "T1"; scan_date := Sample.at_time 7 0;
            Active := 0; sign_out_date := Some (Sample.at_time 17 0) |} /\
  daily_sheet w' !! (2%nat, 3%nat) = Some "OUT" /\
  daily_sheet w' !! (2%nat, 4%nat) = Some "17:00:00".
Proof.
  destruct (sweep_closes_resolving_records (Sample.sweep_at 17 0 false)
              Sample.caches Sample.open_world) as [H _].
  - reflexivity.
  - vm_compute. apply NoDup_singleton.
  - reflexivity.
  - reflexivity.
  - reflexivity.
  - destruct H as (Hc & _ & _ & Hrows & Hcells & _).
    + vm_compute. reflexivity.
    + cbv zeta. split; [exact Hc|]. split.
      * apply (proj1 (Hrows 0%nat (mkOnsite 1 "T1" (Sample.at_time 7 0) 1 None)
                        eq_refl)); [reflexivity|].
        now apply (alice_resolvable _ []).
      * apply (Hcells (mkOnsite 1 "T1" (Sample.at_time 7 0) 1 None) "Alice"
                 2%nat).
        -- now left.
        -- reflexivity.
        -- exists (mkStaff "T1" "Alice" "Ops").
           split; [now constructor | reflexivity].
        -- discriminate.
        -- split; [reflexivity | discriminate].
Defined.

(** C7, as stated, fails in three ways.  The open record of tag T9 is
    active within today's window, its tag has no [Staff] row, and the 17:00
    sweep, in which no database call fails, commits and leaves it active.
    When the sweep's [commit()] raises, Alice's open record stays active.
    And Bob, who has no row in the daily sheet, is signed out by the sweep
    without any daily-sheet update: the only cells staged are Alice's. *)
Lemma sweep_leaves_records_open :
  (let env := Sample.sweep_at 17 0 false in
   let w' := auto_mark_out_all_users env Sample.caches Orphan.orphan_world in
   CUTOFF_TIME < dt_time (sweep_now_cutoff env) /\
   open_today env (mkOnsite 1 "T9" (Sample.at_time 7 0) 1 None) = true /\
   log w' = [EvStartTransaction; EvCommit] /\
   onsite (committed (connection w'))
   = [mkOnsite 1 "T9" (Sample.at_time 7 0) 1 None]) /\
  (let env := Sample.sweep_at 17 0 true in
   let w' := auto_mark_out_all_users env Sample.caches Sample.open_world in
   CUTOFF_TIME < dt_time (sweep_now_cutoff env) /\
   sweep_commit_error env = true /\
   onsite (committed (connection w'))
   = [mkOnsite 1 "T1" (Sample.at_time 7 0) 1 None]) /\
  (let env := Pair.sweep Sample.returns in
   let w' := auto_mark_out_all_users env Sample.caches Pair.world in
   CUTOFF_TIME < dt_time (sweep_now_cutoff env) /\
   staff_name_to_daily_row_index Sample.caches !! "Bob" = None /\
   onsite (committed (connection w'))
   = [mkOnsite 1 "T1" (Sample.at_time 7 0) 0 (Some (Sample.at_time 17 0));
      mkOnsite 2 "T2" (Sample.at_time 7 30) 0
        (Some (Sample.at_time 17 0 + US_PER_SECOND))] /\
   new_events Pair.world w'
   = [EvStartTransaction;
      EvUpdateOnsite 1 (Sample.at_time 17 0);
      EvUpdateOnsite 2 (Sample.at_time 17 0 + US_PER_SECOND);
      EvCommit;
      EvDailyBatch [((2%nat, 3%nat), "OUT"); ((2%nat, 4%nat), "17:00:00")]]).
Proof. vm_compute. repeat split; reflexivity. Qed.



(* ===================================================================== *)
(** ** The end-to-end scenarios *)
(* ===================================================================== *)

(** Scenario A: T1 is Alice; the scan at 07:00 opens an active record,
    marks the monthly cell Present and the daily row IN at 07:00:00. *)
Example scenario_a :
  let r := on_tag_scan (Sample.scan_at 7 0) Sample.caches "T1" Sample.world in
  fst r = true /\
  onsite (committed (connection (snd r)))
  = [mkOnsite 1 "T1" (Sample.at_time 7 0) 1 None] /\
  month_sheet (snd r) !! (2%nat, 4%nat) = Some "Present" /\
  daily_sheet (snd r) !! (2%nat, 3%nat) = Some "IN" /\
  daily_sheet (snd r) !! (2%nat, 4%nat) = Some "07:00:00".
Proof. vm_compute. repeat split; reflexivity. Qed.

(** Scenario B: the scan at 07:10 closes that record, leaves the monthly
    cell alone and sets the daily row to OUT at 07:10:00. *)
Example scenario_b :
  let r := on_tag_scan (Sample.scan_at 7 10) Sample.caches "T1"
             Sample.open_world in
  fst r = true /\
  onsite (committed (connection (snd r)))
  = [mkOnsite 1 "T1" (Sample.at_time 7 0) 0 (Some (Sample.at_time 7 10))] /\
  month_sheet (snd r) !! (2%nat, 4%nat) = Some "Present" /\
  daily_sheet (snd r) !! (2%nat, 3%nat) = Some "OUT" /\
  daily_sheet (snd r) !! (2%nat, 4%nat) = Some "07:10:00".
Proof. vm_compute. repeat split; reflexivity. Qed.

(** Scenario C: the unknown tag T99 is rejected and nothing changes. *)
Example scenario_c :
  on_tag_scan (Sample.scan_at 7 0) Sample.caches "T99" Sample.world
  = (false, Sample.world).
Proof. vm_compute. reflexivity. Qed.

(** Scenario D: the 17:00 sweep closes the record Alice left open and sets
    her daily row to OUT at 17:00:00; the monthly cell stays Present. *)
Example scenario_d :
  let w := auto_mark_out_all_users (Sample.sweep_at 17 0 false) Sample.caches
             Sample.open_world in
  onsite (committed (connection w))
  = [mkOnsite 1 "T1" (Sample.at_time 7 0) 0 (Some (Sample.at_time 17 0))] /\
  month_sheet w !! (2%nat, 4%nat) = Some "Present" /\
  daily_sheet w !! (2%nat, 3%nat) = Some "OUT" /\
  daily_sheet w !! (2%nat, 4%nat) = Some "17:00:00".
Proof. vm_compute. repeat split; reflexivity. Qed.

(** Three scans of Alice: in at 07:00, out at 07:10, in again at 09:00. *)
Example three_scans_of_alice :
  let steps := scan_all Sample.caches "T1"
                 [Sample.scan_at 7 0; Sample.scan_at 7 10; Sample.scan_at 9 0]
                 Sample.world in
  map st_ok steps = [true; true; true] /\
  map (fun s => onsite (committed (connection (st_after s)))) steps
  = [[mkOnsite 1 "T1" (Sample.at_time 7 0) 1 None];
     [mkOnsite 1 "T1" (Sample.at_time 7 0) 0 (Some (Sample.at_time 7 10))];
     [mkOnsite 1 "T1" (Sample.at_time 7 0) 0 (Some (Sample.at_time 7 10));
      mkOnsite 2 "T1" (Sample.at_time 9 0) 1 None]].
Proof. vm_compute. split; reflexivity. Qed.

(** A sweep whose [commit] raises leaves Alice's record open and the daily
    row at IN. *)
Example sweep_commit_failure :
  let w := auto_mark_out_all_users (Sample.sweep_at 17 0 true) Sample.caches
             Sample.open_world in
  connection w = connection Sample.open_world /\
  daily_sheet w = daily_sheet Sample.open_world /\
  new_events Sample.open_world w
  = [EvStartTransaction; EvUpdateOnsite 1 (Sample.at_time 17 0); EvError;
     EvRollback].
Proof. vm_compute. repeat split; reflexivity. Qed.

(** The write to [onsite] of Alice's 07:00 scan raises [OperationalError]
    at each of its five attempts: [on_tag_scan] is left by [RetryError],
    the log has the insert and the commit of the new binding and no
    rollback, and the run of the script skips the sweep. *)
Example scan_retry_error :
  let env := Sample.unreachable_scan_at 7 0 in
  let r := on_tag_scan env Sample.caches "T1" Sample.world in
  mysql_db_call (onsite_execute env) = Retry.GaveUp /\
  raised (snd r) = Some RetryError /\
  log (snd r) = [EvInsertSign "T1" "Alice"; EvCommit] /\
  onsite (committed (connection (snd r))) = [] /\
  last_tap_times (snd r) !! "Alice" = Some (Sample.at_time 7 0).
Proof. vm_compute. repeat split; reflexivity. Qed.

(** The same write raising an [Error] that is not retried: [on_tag_scan]
    returns [False] after the rollback. *)
Example scan_error_rolled_back :
  let env := Sample.failing_scan_at 7 0 in
  let r := on_tag_scan env Sample.caches "T1" Sample.world in
  mysql_db_call (onsite_execute env) = Retry.Propagated /\
  fst r = false /\ raised (snd r) = None /\
  log (snd r) = [EvInsertSign "T1" "Alice"; EvCommit; EvError; EvRollback].
Proof. vm_compute. repeat split; reflexivity. Qed.

(** The 17:00 sweep of Alice's and Bob's open records.  When Bob's
    [UPDATE] raises [OperationalError] at each of its five attempts, the
    sweep is left by [RetryError]: there is no rollback, Alice's update
    stays pending in the open transaction, nothing is committed.  When it
    raises an [Error] that is not retried, the handler rolls back. *)
Example sweep_retry_error :
  let w' := auto_mark_out_all_users (Pair.sweep Sample.keeps_raising)
              Sample.caches Pair.world in
  let w'' := auto_mark_out_all_users (Pair.sweep Sample.raises_error)
               Sample.caches Pair.world in
  (raised w' = Some RetryError /\
   log w' = [EvStartTransaction; EvUpdateOnsite 1 (Sample.at_time 17 0)] /\
   onsite (committed (connection w')) = Pair.ledger /\
   onsite (working (connection w'))
   = [mkOnsite 1 "T1" (Sample.at_time 7 0) 0 (Some (Sample.at_time 17 0));
      mkOnsite 2 "T2" (Sample.at_time 7 30) 1 None] /\
   daily_sheet w' = daily_sheet Pair.world) /\
  (raised w'' = None /\
   log w'' = [EvStartTransaction; EvUpdateOnsite 1 (Sample.at_time 17 0);
              EvError; EvRollback] /\
   connection w'' = connection Pair.world /\
   daily_sheet w'' = daily_sheet Pair.world).
Proof. vm_compute. repeat split; reflexivity. Qed.

(** A tag that is one NO-BREAK SPACE (the bytes C2 A0) is stripped to the
    empty string, and the run exits with status 1 before the [try]
    statement. *)
Example blank_tag_exits_one :
  let nbsp := String (Ascii.ascii_of_nat 194)
                (String (Ascii.ascii_of_nat 160) EmptyString) in
  Script.strip (" " ++ nbsp ++ " ") = "" /\
  Script.strip (nbsp ++ "T1" ++ nbsp) = "T1" /\
  Script.main (Sample.invocation nbsp true true Sample.headers) Sample.world
  = (1, Sample.world).
Proof. vm_compute. repeat split; reflexivity. Qed.
